(** * Video ingestion service: a shallow embedding and its properties

    The development embeds [services/videoService.js] (class
    [VideoService]), the routes of the video router with the
    validation middleware in front of them, the video controller and
    [extractText] of the text generators into Rocq, and states the
    properties of the ingestion pipeline over that embedding.

    - JavaScript strings are [string]s: sequences of 8-bit characters,
      holding the text in UTF-8.
    - Regular-expression literals are kept as syntax trees and run by a
      backtracking matcher with the priorities of the JavaScript matcher.
    - Asynchronous methods are computations in a state-and-exception monad
      over a [world]: the scratch directory contents, the counters of the
      random and clock sources, and the chronological trace of effects.
    - Everything outside the repository (ytdl, ffmpeg, the speech and
      vision services, the text generators) is an oracle of the record
      [env], and so is the one thing the program leaves to the
      scheduler: whether a deletion it does not await has completed
      when its caller settles. No property below constrains an oracle
      unless it says so. *)

From Stdlib Require Import String Ascii List ZArith QArith Lia Bool.
From Stdlib Require Import DecimalString DecimalNat.
From stdpp Require Import base decidable sets gmap list strings.

Local Open Scope stdpp_scope.

(* ===================================================================== *)
(** * JavaScript strings *)
(* ===================================================================== *)

Module Js.

(** Template-literal rendering of a non-negative integer. *)
Definition of_nat (n : nat) : string :=
  NilZero.string_of_uint (Nat.to_uint n).

(** [path.join(dir, name)] for a normalized [dir] and a plain file
    name: the two joined by the separator. *)
Definition path_join (dir name : string) : string :=
  dir +:+ "/" +:+ name.

Definition is_upper (c : ascii) : bool :=
  ((65 <=? nat_of_ascii c) && (nat_of_ascii c <=? 90))%nat.

Definition lower_char (c : ascii) : ascii :=
  if is_upper c then ascii_of_nat (nat_of_ascii c + 32) else c.

(** [s.toLowerCase()] on a string in UTF-8. The capital letters of
    ASCII are lowered, and so are the two characters outside ASCII
    whose lower case holds an ASCII letter: the Kelvin sign (U+212A),
    which becomes [k], and the dotted capital I (U+0130), which becomes
    [i] followed by a combining dot (U+0307). Every other character
    outside ASCII is kept as it is: its lower case lies outside ASCII
    too, so that no search for an ASCII keyword tells the two apart. *)
Fixpoint toLowerCase (s : string) : string :=
  match s with
  | EmptyString => EmptyString
  | String "226" (String "132" (String "170" t)) =>
      String "k" (toLowerCase t)
  | String "196" (String "176" t) =>
      String "i" (String "204" (String "135" (toLowerCase t)))
  | String c t => String (lower_char c) (toLowerCase t)
  end.

Fixpoint starts_with (p s : string) : bool :=
  match p, s with
  | EmptyString, _ => true
  | String a p', String b s' => Ascii.eqb a b && starts_with p' s'
  | String _ _, EmptyString => false
  end.

(** [s.includes(p)]. *)
Fixpoint includes (s p : string) : bool :=
  starts_with p s ||
  match s with
  | EmptyString => false
  | String _ t => includes t p
  end.

(** [x || d] on strings: the empty string is falsy. *)
Definition or_default (x : option string) (d : string) : string :=
  match x with
  | Some EmptyString | None => d
  | Some s => s
  end.

End Js.

(* ===================================================================== *)
(** * Regular expressions *)
(* ===================================================================== *)

Module Regex.

(** Syntax of the regular-expression literals of the service. *)
Inductive re : Type :=
| Eps                           (* empty pattern *)
| Bol                           (* ^ *)
| Cls (p : ascii -> bool)       (* one character of a class *)
| Seq (r1 r2 : re)
| Alt (r1 r2 : re)              (* r1|r2 *)
| Opt (r : re)                  (* r? *)
| Star (r : re)                 (* r* *)
| Plus (r : re)                 (* r+ *)
| Grp (n : nat) (r : re).       (* n-th capturing group *)

(** Matcher state: characters consumed so far, remaining input, and the
    captures recorded so far. *)
Record mstate : Type := MState {
  pos : nat;
  rest : string;
  caps : list (nat * string)
}.

Definition step_char (p : ascii -> bool) (s : mstate) : list mstate :=
  match rest s with
  | String c t => if p c then [MState (S (pos s)) t (caps s)] else []
  | EmptyString => []
  end.

Definition set_cap (n : nat) (s0 s1 : mstate) : mstate :=
  MState (pos s1) (rest s1)
         ((n, String.substring 0 (pos s1 - pos s0) (rest s0)) :: caps s1).

Definition progressed (s0 s1 : mstate) : bool := (pos s0 <? pos s1)%nat.

(** Greedy iteration of [body]: an iteration that consumes nothing is
    rejected, so every iteration shortens the remaining input and [n],
    the length of that input, bounds their number exactly. *)
Fixpoint iter (body : mstate -> list mstate) (n : nat) (s0 : mstate)
  : list mstate :=
  match n with
  | O => [s0]
  | S n' =>
      flat_map (fun s1 => if progressed s0 s1 then iter body n' s1 else [])
               (body s0) ++ [s0]
  end.

Definition many (body : mstate -> list mstate) (s : mstate) : list mstate :=
  iter body (String.length (rest s)) s.

(** All ways of matching [r] from a state, most preferred first: the
    head of the list is the match a backtracking matcher reports. *)
Fixpoint run (r : re) (s : mstate) : list mstate :=
  match r with
  | Eps => [s]
  | Bol => if (pos s =? 0)%nat then [s] else []
  | Cls p => step_char p s
  | Seq r1 r2 => flat_map (run r2) (run r1 s)
  | Alt r1 r2 => run r1 s ++ run r2 s
  | Opt a => run a s ++ [s]
  | Star a => many (run a) s
  | Plus a => flat_map (many (run a)) (run a s)
  | Grp n a => map (set_cap n s) (run a s)
  end.

(** Match attempt at one start offset. *)
Definition match_at (r : re) (offset : nat) (s : string) : option mstate :=
  head (run r (MState offset s [])).

(** Leftmost match, as [RegExp.prototype.exec] without the [g] flag:
    start offsets are tried from left to right. *)
Fixpoint exec_from (r : re) (offset : nat) (s : string) : option mstate :=
  match match_at r offset s with
  | Some m => Some m
  | None =>
      match s with
      | EmptyString => None
      | String _ t => exec_from r (S offset) t
      end
  end.

Definition exec (r : re) (s : string) : option mstate := exec_from r 0 s.

(** [regexp.test(s)]. *)
Definition test (r : re) (s : string) : bool :=
  match exec r s with Some _ => true | None => false end.

(** [match[n]] for a group that took part in the match. *)
Definition group (n : nat) (m : mstate) : option string :=
  snd <$> List.find (fun c => (fst c =? n)%nat) (caps m).

(** [s.match(regexp)] for a regexp with the [g] flag: the matched
    substrings from left to right, each search resuming where the
    previous match ended (one character further after an empty match).
    Every round consumes a character, so [n] rounds suffice for an input
    of length [n - 1]. *)
Fixpoint match_all_from (r : re) (n offset : nat) (s : string) : list string :=
  match n with
  | O => []
  | S n' =>
      match exec_from (Grp 0 r) offset s with
      | None => []
      | Some m =>
          match group 0 m with
          | None => []
          | Some EmptyString =>
              match rest m with
              | EmptyString => [EmptyString]
              | String _ t => EmptyString :: match_all_from r n' (S (pos m)) t
              end
          | Some whole => whole :: match_all_from r n' (pos m) (rest m)
          end
      end
  end.

Definition match_all (r : re) (s : string) : list string :=
  match_all_from r (S (String.length s)) 0 s.

(** Building blocks. *)
Definition chr (c : ascii) : re := Cls (Ascii.eqb c).

Fixpoint lit (s : string) : re :=
  match s with
  | EmptyString => Eps
  | String c EmptyString => chr c
  | String c t => Seq (chr c) (lit t)
  end.

(** [.] matches everything but a line terminator. *)
Definition is_dot (c : ascii) : bool :=
  negb (Ascii.eqb c "010" || Ascii.eqb c "013").
Definition dot : re := Cls is_dot.

Definition is_digit (c : ascii) : bool :=
  ((48 <=? nat_of_ascii c) && (nat_of_ascii c <=? 57))%nat.
Definition is_lower (c : ascii) : bool :=
  ((97 <=? nat_of_ascii c) && (nat_of_ascii c <=? 122))%nat.

(** [\w]. *)
Definition is_word (c : ascii) : bool :=
  Js.is_upper c || is_lower c || is_digit c || Ascii.eqb c "_".
Definition word : re := Cls is_word.

End Regex.


(* ===================================================================== *)
(** * The world of a request and the monad of asynchronous methods *)
(* ===================================================================== *)

Module Sys.

(** A JavaScript [Error]; only its message is ever inspected. *)
Inductive error : Type := Error (message : string).

Definition message (e : error) : string := let 'Error m := e in m.

(** Observable effects, in the order they happen. *)
Inductive event : Type :=
| EvWrite (path : string)      (* an external tool wrote a file *)
| EvRead (path : string)       (* fs.readFile succeeded *)
| EvUnlink (path : string)     (* fs.unlink succeeded *)
| EvDetached (path : string)   (* fs.unlink started, not awaited, still in flight *)
| EvSpeech (path : string)     (* request to the speech-to-text service *)
| EvVision (path : string)     (* request to the vision service *)
| EvLog (line : string)        (* console.log *)
| EvError (label : string).    (* console.error *)

Record world : Type := World {
  fs : gset string;            (* paths present in the scratch directory *)
  uuids : nat;                 (* identifiers drawn from uuidv4 so far *)
  ticks : nat;                 (* clock readings taken so far *)
  trace : list event
}.

(** How an awaited promise ends: fulfilled, rejected, or never settled. *)
Inductive outcome (A : Type) : Type :=
| Ret (a : A)
| Throw (e : error)
| Pending.
Arguments Ret {A} a.
Arguments Throw {A} e.
Arguments Pending {A}.

Definition M (A : Type) : Type := world -> outcome A * world.

Definition ret {A} (a : A) : M A := fun w => (Ret a, w).

Definition throw {A} (e : error) : M A := fun w => (Throw e, w).

Definition never {A} : M A := fun w => (Pending, w).

Definition bind {A B} (m : M A) (k : A -> M B) : M B :=
  fun w =>
    match m w with
    | (Ret a, w') => k a w'
    | (Throw e, w') => (Throw e, w')
    | (Pending, w') => (Pending, w')
    end.

(** [try { body } catch (error) { handler }]. *)
Definition try_catch {A} (body : M A) (handler : error -> M A) : M A :=
  fun w =>
    match body w with
    | (Throw e, w') => handler e w'
    | r => r
    end.

Declare Scope js_scope.
Delimit Scope js_scope with js.
Notation "'let*' x ':=' m 'in' k" := (bind m (fun x => k))
  (at level 10, x name, m at level 100, k at level 200) : js_scope.
Notation "'await' m 'in' k" := (bind m (fun _ => k))
  (at level 10, m at level 100, k at level 200) : js_scope.
(** A call that is not awaited: [m] says what of it has happened when
    the caller goes on. *)
Notation "'start' m 'in' k" := (bind m (fun _ => k))
  (at level 10, m at level 100, k at level 200, only parsing) : js_scope.

Definition emit (e : event) : M unit :=
  fun w => (Ret tt, World (fs w) (uuids w) (ticks w) (trace w ++ [e])).

Definition console_log (line : string) : M unit := emit (EvLog line).

Definition console_error (label : string) : M unit := emit (EvError label).

(** A file written by an external tool (ffmpeg, a write stream). *)
Definition write_file (path : string) : M unit :=
  fun w => (Ret tt, World ({[path]} ∪ fs w) (uuids w) (ticks w)
                          (trace w ++ [EvWrite path])).

(** [fs.readFile(path)]: rejects when the file is absent. The buffer is
    identified with the path it was read from. *)
Definition readFile (path : string) : M string :=
  fun w =>
    if decide (path ∈ fs w)
    then (Ret path, World (fs w) (uuids w) (ticks w) (trace w ++ [EvRead path]))
    else (Throw (Error "ENOENT: no such file or directory"), w).

(** [fs.unlink(path)]: rejects when the file is absent. *)
Definition unlink (path : string) : M unit :=
  fun w =>
    if decide (path ∈ fs w)
    then (Ret tt, World (fs w ∖ {[path]}) (uuids w) (ticks w)
                        (trace w ++ [EvUnlink path]))
    else (Throw (Error "ENOENT: no such file or directory"), w).

(** [for (const x of xs) { await body(x) }]. *)
Fixpoint for_each {A} (xs : list A) (body : A -> M unit) : M unit :=
  match xs with
  | [] => ret tt
  | x :: rest => bind (body x) (fun _ => for_each rest body)
  end.

End Sys.

(* ===================================================================== *)
(** * Data of the service and its external collaborators *)
(* ===================================================================== *)

Module Data.
Import Sys.

(** A segment of the speech-to-text response. Offsets are seconds. *)
Record segment : Type := Segment {
  seg_start : Q;
  seg_end : Q;
  seg_text : string
}.

(** Response of [openai.audio.transcriptions.create]; [segments] and
    [language] may be missing. *)
Record speech_response : Type := SpeechResponse {
  resp_text : string;
  resp_segments : option (list segment);
  resp_language : option string
}.

(** Object returned by [transcribeAudio]. *)
Record transcript : Type := Transcript {
  text : string;
  segments : list segment;
  duration : Q;
  language : string
}.

(** Element pushed on [analyses] by [analyzeFrames]: [analysis] is the
    message content of the answer, which the service types as a string
    or [null]. *)
Record pushed_analysis : Type := PushedAnalysis {
  pushed_frame : string;
  pushed_analysis_content : option string;
  pushed_timestamp : string
}.

(** An element of [analyses] whose [analysis] is a string: what the
    three summaries of [analyzeFrames] can work with. *)
Record frame_analysis : Type := FrameAnalysis {
  frame : string;
  analysis : string;
  timestamp : string
}.

Record important_visual : Type := ImportantVisual {
  description : string;
  iv_timestamp : string
}.

(** Object returned by [analyzeFrames] and [analyzeVisuals]; the two
    fallback objects leave out [frameAnalyses] or [sceneChanges]. *)
Record visual_analysis : Type := VisualAnalysis {
  frameAnalyses : option (list frame_analysis);
  keyVisualElements : list string;
  textInImages : list string;
  sceneChanges : option (list string);
  importantVisuals : list important_visual
}.

(** [combinedContent] of the route. *)
Record combined_content : Type := CombinedContent {
  cc_transcript : transcript;
  cc_visualNotes : visual_analysis;
  cc_url : string
}.

(** ffmpeg transcoding the ytdl audio stream to the output file: the
    ['end'] event after the file is written, or the ['error'] event, with
    or without a partial output file left behind. *)
Inductive transcode_result : Type :=
| TranscodeEnd
| TranscodeError (partial : bool) (err : error).

(** Piping the ytdl video stream into the write stream: ['finish'], or a
    stream that breaks, for which the service registers no handler. *)
Inductive download_result : Type :=
| DownloadFinish
| DownloadBreaks.

(** ffmpeg taking screenshots: ['end'] after all the files of the
    request are written, or ['error'] after the first [written] ones. *)
Inductive screenshots_result : Type :=
| ScreenshotsEnd
| ScreenshotsError (written : nat) (err : error).

Inductive speech_result : Type :=
| SpeechOk (response : speech_response)
| SpeechFails (err : error).

(** Response of [openai.chat.completions.create]: the message contents
    of its [choices], each a string or [null] ([None]). *)
Inductive vision_result : Type :=
| VisionOk (choices : list (option string))
| VisionFails (err : error).

Inductive generator_result : Type :=
| Generated (data : string)
| GeneratorFails (err : error).

(** Everything the service calls outside the repository. *)
Record env : Type := Env {
  tempDir : string;                               (* this.tempDir *)
  uuid_source : nat -> string;                    (* n-th uuidv4() *)
  clock_source : nat -> string;                   (* n-th new Date().toISOString() *)
  ytdl_audio : string -> transcode_result;        (* by video URL *)
  ytdl_video : string -> download_result;         (* by video URL *)
  ffmpeg_screenshots : string -> screenshots_result;   (* by video file *)
  speech_to_text : string -> speech_result;       (* by audio file *)
  vision : string -> vision_result;               (* by frame file *)
  generatePresentation : combined_content -> generator_result;
  generateKeyPoints : combined_content -> generator_result;
  generateDescriptive : combined_content -> generator_result;
  generateMindmapData : combined_content -> generator_result;
  generateShortNotes : combined_content -> generator_result;
  unlink_settles_first : string -> bool
    (* by file: a deletion that is started and not awaited has completed
       when the promise of its caller settles *)
}.

End Data.

(* ===================================================================== *)
(** * services/videoService.js *)
(* ===================================================================== *)

Module VideoService.
Import Regex Sys Data.
Local Open Scope js_scope.

(** [/^(https?:\/\/)?(www\.)?(youtube\.com|youtu\.be)\//] *)
Definition youtubeRegex : re :=
  Seq Bol
 (Seq (Opt (Grp 1 (Seq (lit "http") (Seq (Opt (chr "s")) (lit "://")))))
 (Seq (Opt (Grp 2 (lit "www.")))
 (Seq (Grp 3 (Alt (lit "youtube.com") (lit "youtu.be")))
      (chr "/")))).

Definition isYouTubeUrl (url : string) : bool := test youtubeRegex url.

(** [/^(https?:\/\/)?(www\.)?instagram\.com\//] *)
Definition instagramRegex : re :=
  Seq Bol
 (Seq (Opt (Grp 1 (Seq (lit "http") (Seq (Opt (chr "s")) (lit "://")))))
 (Seq (Opt (Grp 2 (lit "www.")))
      (lit "instagram.com/"))).

Definition isInstagramUrl (url : string) : bool := test instagramRegex url.

(** [[^#&?]] *)
Definition not_delimiter (c : ascii) : bool :=
  negb (Ascii.eqb c "#" || Ascii.eqb c "&" || Ascii.eqb c "?").

(** [/^.(youtu.be\/|v\/|u\/\w\/|embed\/|watch\?v=|&v=)([^#&?]).*/]: the
    dot of [youtu.be] is unescaped, and the second group is one
    character of the class. *)
Definition regExp : re :=
  Seq Bol
 (Seq dot
 (Seq (Grp 1 (Alt (Seq (lit "youtu") (Seq dot (lit "be/")))
             (Alt (lit "v/")
             (Alt (Seq (lit "u/") (Seq word (chr "/")))
             (Alt (lit "embed/")
             (Alt (lit "watch?v=")
                  (lit "&v=")))))))
 (Seq (Grp 2 (Cls not_delimiter))
      (Star dot)))).

(** [[A-Za-z0-9_-]] *)
Definition is_token_char (c : ascii) : bool :=
  Js.is_upper c || is_lower c || is_digit c || Ascii.eqb c "_" || Ascii.eqb c "-".

(** [/\/p\/([A-Za-z0-9_-]+)/] *)
Definition instagramIdRegex : re :=
  Seq (lit "/p/") (Grp 1 (Plus (Cls is_token_char))).

(** [match[n]]; the groups read below take part in every match of their
    regexp. *)
Definition group_of (n : nat) (m : mstate) : string :=
  default EmptyString (group n m).

(** [calculateDuration(segments)]; [x || 0] on a number replaces zero by
    zero. *)
Definition calculateDuration (segments : option (list segment)) : Q :=
  match segments with
  | None => 0
  | Some segs =>
      match last segs with
      | None => 0
      | Some lastSegment =>
          if Qeq_bool (seg_end lastSegment) 0 then 0 else seg_end lastSegment
      end
  end.

(** [[...new Set(elements)]]: first occurrences, in insertion order. *)
Definition unique (elements : list string) : list string :=
  fold_left (fun seen x => if decide (x ∈ seen) then seen else seen ++ [x])
            elements [].

Definition extractKeyVisualElements (analyses : list frame_analysis)
  : list string :=
  unique
    (flat_map
       (fun a =>
          let text := Js.toLowerCase (analysis a) in
          (if Js.includes text "chart" || Js.includes text "graph"
           then ["Charts/Graphs detected"] else []) ++
          (if Js.includes text "text" || Js.includes text "title"
           then ["Important text elements"] else []) ++
          (if Js.includes text "diagram" || Js.includes text "flowchart"
           then ["Diagrams/Flowcharts"] else []))
       analyses).

Definition is_quote (c : ascii) : bool := Ascii.eqb c "034".

(** The global regexp of [extractTextFromAnalyses]: a double quote, a
    group of one or more characters other than a double quote, and a
    double quote. *)
Definition quotedRegex : re :=
  Seq (Cls is_quote)
 (Seq (Grp 1 (Plus (Cls (fun c => negb (is_quote c)))))
      (Cls is_quote)).

(** [match.replace(..., '')] removing every double quote. *)
Fixpoint strip_quotes (s : string) : string :=
  match s with
  | EmptyString => EmptyString
  | String c t => if is_quote c then strip_quotes t else String c (strip_quotes t)
  end.

Definition extractTextFromAnalyses (analyses : list frame_analysis)
  : list string :=
  flat_map (fun a => map strip_quotes (match_all quotedRegex (analysis a)))
           analyses.

Definition identifyImportantVisuals (analyses : list frame_analysis)
  : list important_visual :=
  map (fun a => ImportantVisual (analysis a) (timestamp a))
      (List.filter
         (fun a =>
            Js.includes (Js.toLowerCase (analysis a)) "important" ||
            Js.includes (Js.toLowerCase (analysis a)) "key" ||
            Js.includes (Js.toLowerCase (analysis a)) "significant")
         analyses).

(** The elements of [analyses] with their string contents, unless one
    of them has a null content. Each of the three summaries calls a
    string method on the [analysis] of every element, [toLowerCase]
    first, and that call throws a [TypeError] on [null]. *)
Fixpoint with_text (analyses : list pushed_analysis)
  : option (list frame_analysis) :=
  match analyses with
  | [] => Some []
  | a :: rest =>
      match pushed_analysis_content a, with_text rest with
      | Some content, Some notes =>
          Some (FrameAnalysis (pushed_frame a) content (pushed_timestamp a)
                  :: notes)
      | _, _ => None
      end
  end.

Section WithEnv.
Variable E : env.

(** [uuidv4()]: the next identifier of the random source. *)
Definition uuidv4 : M string :=
  fun w => (Ret (uuid_source E (uuids w)),
            World (fs w) (S (uuids w)) (ticks w) (trace w)).

(** [new Date().toISOString()]: the next reading of the clock. *)
Definition now : M string :=
  fun w => (Ret (clock_source E (ticks w)),
            World (fs w) (uuids w) (S (ticks w)) (trace w)).

Definition cleanupFile (filePath : string) : M unit :=
  try_catch (unlink filePath)
            (fun error =>
               console_error ("Failed to cleanup file " +:+ filePath +:+ ":")).

(** [this.cleanupFile(filePath)] without [await]: the deletion is
    started and the caller goes on at once. The program does not fix
    whether the deletion has completed when the promise of the caller
    settles; [unlink_settles_first] decides. When it has not, the file
    is still in the scratch directory at that moment, the deletion is
    recorded as in flight, and nothing is said of when the file goes. *)
Definition cleanupFile_detached (filePath : string) : M unit :=
  if unlink_settles_first E filePath then cleanupFile filePath
  else emit (EvDetached filePath).

Definition extractVideoId (videoUrl : string) : M string :=
  if isYouTubeUrl videoUrl then
    match exec regExp videoUrl with
    | Some m =>
        if (String.length (group_of 2 m) =? 11)%nat
        then ret (group_of 2 m) else uuidv4
    | None => uuidv4
    end
  else if isInstagramUrl videoUrl then
    match exec instagramIdRegex videoUrl with
    | Some m => ret (group_of 1 m)
    | None => uuidv4
    end
  else uuidv4.

(** The promise of [extractYouTubeAudio] settles on the ['end'] or the
    ['error'] event of the transcoder. *)
Definition extractYouTubeAudio (videoUrl audioPath : string) : M string :=
  match ytdl_audio E videoUrl with
  | TranscodeEnd =>
      await write_file audioPath in
      await console_log "Audio extraction completed" in
      ret audioPath
  | TranscodeError partial err =>
      await (if partial then write_file audioPath else ret tt) in
      await console_error "FFmpeg error:" in
      throw err
  end.

Definition extractInstagramAudio (videoUrl audioPath : string) : M string :=
  try_catch
    (throw (Error "Instagram video processing requires additional API setup"))
    (fun error => throw (Error "Instagram video extraction not yet implemented")).

Definition extractAudio (videoUrl : string) : M string :=
  try_catch
    (let* videoId := extractVideoId videoUrl in
     let* u := uuidv4 in
     let audioPath :=
       Js.path_join (tempDir E) (videoId +:+ "-" +:+ u +:+ ".wav") in
     if isYouTubeUrl videoUrl then extractYouTubeAudio videoUrl audioPath
     else if isInstagramUrl videoUrl then extractInstagramAudio videoUrl audioPath
     else throw (Error "Unsupported video platform"))
    (fun error =>
       await console_error "Audio extraction error:" in
       throw (Error "Failed to extract audio from video")).

(** [openai.audio.transcriptions.create({ file: audioFile, ... })]. *)
Definition transcriptions_create (audioFile : string) : M speech_response :=
  await emit (EvSpeech audioFile) in
  match speech_to_text E audioFile with
  | SpeechOk response => ret response
  | SpeechFails err => throw err
  end.

Definition transcribeAudio (audioPath : string) : M transcript :=
  try_catch
    (let* audioFile := readFile audioPath in
     let* response := transcriptions_create audioFile in
     await cleanupFile audioPath in
     ret (Transcript (resp_text response)
                     (default [] (resp_segments response))
                     (calculateDuration (resp_segments response))
                     (Js.or_default (resp_language response) "en")))
    (fun error =>
       await console_error "Transcription error:" in
       await cleanupFile audioPath in
       throw (Error "Failed to transcribe audio")).

(** File name of the [i]-th frame, as built by the collecting loop of
    [extractFrames]. *)
Definition frame_path (videoId : string) (i : nat) : string :=
  Js.path_join (tempDir E) (videoId +:+ "-frame-" +:+ Js.of_nat i +:+ ".png").

(** The collecting loop of [extractFrames]:
    [for (let i = 1; i <= frameCount; i++) frames.push(...)]. *)
Definition collect_frames (videoId : string) (frameCount : nat)
    (frames : list string) : list string :=
  fold_left (fun frames i => frames ++ [frame_path videoId i])
            (seq 1 frameCount) frames.

(** [ffmpeg(video).screenshots({ count, folder, filename })] with the
    file-name pattern [prefix%isuffix]. With a count of zero the call
    itself throws, before any command is started. Otherwise the library
    replaces [%i] by the index of the screenshot, counted from one, and
    writes the files in that order; the result is the event the command
    ends with, ['end'] ([None]) or ['error']. *)
Definition screenshots (video : string) (count : nat) (folder prefix suffix : string)
  : M (option error) :=
  let file i := Js.path_join folder (prefix +:+ Js.of_nat i +:+ suffix) in
  if (count =? 0)%nat then
    throw (Error ("Cannot take screenshots: neither a count nor a " +:+
                  "timemark list are specified"))
  else
    match ffmpeg_screenshots E video with
    | ScreenshotsEnd =>
        await for_each (map file (seq 1 count)) write_file in
        ret None
    | ScreenshotsError written err =>
        await for_each (map file (seq 1 (Nat.min written count))) write_file in
        ret (Some err)
    end.

(** The promise of [extractFrames]. The download writes the temporary
    video; its ['finish'] callback issues the screenshot command and then
    pushes the [frameCount] paths on the array [frames], all before any
    event of the command is delivered. An exception thrown by the
    screenshot call itself escapes from the callback, where nothing
    catches it: the promise never settles and the video stays. The
    command then writes its files and ends with ['end'], whose handler
    calls [resolve(frames)] on that same array, or with ['error'], whose
    handler calls [reject(err)]; both handlers first call [cleanupFile]
    on the video without awaiting it. Without ['finish'] the promise
    never settles. *)
Definition extractFrames (videoUrl : string) (frameCount : nat)
  : M (list string) :=
  let* videoId := extractVideoId videoUrl in
  let frames := [] in
  let tempVideoPath := Js.path_join (tempDir E) (videoId +:+ "-temp.mp4") in
  await write_file tempVideoPath in
  match ytdl_video E videoUrl with
  | DownloadBreaks => never
  | DownloadFinish =>
      let* failure :=
        try_catch
          (screenshots tempVideoPath frameCount (tempDir E)
                       (videoId +:+ "-frame-") ".png")
          (fun thrown => never) in
      let frames := collect_frames videoId frameCount frames in
      match failure with
      | None =>
          start cleanupFile_detached tempVideoPath in
          ret frames
      | Some err =>
          start cleanupFile_detached tempVideoPath in
          throw err
      end
  end.

(** [openai.chat.completions.create(...)] on one frame, followed by
    [response.choices[0].message.content], a string or [null]. *)
Definition completions_create (frameBuffer : string) : M (option string) :=
  await emit (EvVision frameBuffer) in
  match vision E frameBuffer with
  | VisionOk (content :: _) => ret content
  | VisionOk [] =>
      throw (Error "Cannot read properties of undefined (reading 'message')")
  | VisionFails err => throw err
  end.

(** The [for (const framePath of framePaths)] loop of [analyzeFrames],
    threading the [analyses] array. The content is pushed as it is. *)
Fixpoint analyze_loop (framePaths : list string) (analyses : list pushed_analysis)
  : M (list pushed_analysis) :=
  match framePaths with
  | [] => ret analyses
  | framePath :: rest =>
      let* analyses' :=
        try_catch
          (let* frameBuffer := readFile framePath in
           let* content := completions_create frameBuffer in
           let* stamp := now in
           ret (analyses ++ [PushedAnalysis framePath content stamp]))
          (fun frameError =>
             await console_error ("Frame analysis error for " +:+ framePath +:+ ":") in
             ret analyses) in
      analyze_loop rest analyses'
  end.

(** The summaries are computed while the returned object is built; on
    a null content the first of them throws and the outer [catch]
    returns the object with no analyses. *)
Definition analyzeFrames (framePaths : list string) : M visual_analysis :=
  try_catch
    (let* analyses := analyze_loop framePaths [] in
     match with_text analyses with
     | Some analyses =>
         ret (VisualAnalysis (Some analyses)
                             (extractKeyVisualElements analyses)
                             (extractTextFromAnalyses analyses)
                             None
                             (identifyImportantVisuals analyses))
     | None =>
         throw (Error "Cannot read properties of null (reading 'toLowerCase')")
     end)
    (fun error =>
       await console_error "Frame analysis error:" in
       ret (VisualAnalysis (Some []) [] [] None [])).

Definition analyzeVisuals (videoUrl : string) : M visual_analysis :=
  try_catch
    (let* frames := extractFrames videoUrl 10 in
     let* visualAnalysis := analyzeFrames frames in
     await for_each frames cleanupFile in
     ret visualAnalysis)
    (fun error =>
       await console_error "Visual analysis error:" in
       ret (VisualAnalysis None [] [] (Some []) [])).

End WithEnv.

End VideoService.

(* ===================================================================== *)
(** * routes/video.js: POST /analyze *)
(* ===================================================================== *)

Module VideoRoutes.
Import Sys Data VideoService.
Local Open Scope js_scope.

(** [req.body] once [validateVideoURL] has let the request through. *)
Record request_body : Type := RequestBody {
  url : string;
  format : option string
}.

Record metadata : Type := Metadata {
  md_url : string;
  md_format : string;
  md_duration : Q;
  md_processedAt : string
}.

(** What the handler sends: [res.json({ success, data, metadata })] or
    [res.status(code).json({ success, error, message })]. *)
Inductive response : Type :=
| Json (success : bool) (data : string) (meta : metadata)
| StatusJson (status : nat) (success : bool) (error message : string).

Definition generator (r : generator_result) : M string :=
  match r with
  | Generated data => ret data
  | GeneratorFails err => throw err
  end.

(** The emoji that opens the first log line of the handler (U+1F4F9),
    in UTF-8. *)
Definition camera : string :=
  String "240" (String "159" (String "147" (String "185" EmptyString))).

Section WithEnv.
Variable E : env.

(** The handler of [POST /analyze], which the router runs once
    [validateVideoURL] has let the request through. *)
Definition analyze (body : request_body) : M response :=
  let url := url body in
  let format := default "keypoints" (format body) in
  try_catch
    (await console_log (camera +:+ " Processing video: " +:+ url) in
     let* audioPath := extractAudio E url in
     let* transcript := transcribeAudio E audioPath in
     let* visualAnalysis := analyzeVisuals E url in
     let combinedContent := CombinedContent transcript visualAnalysis url in
     let* result :=
       if String.eqb format "presentation"
       then generator (generatePresentation E combinedContent)
       else if String.eqb format "keypoints"
       then generator (generateKeyPoints E combinedContent)
       else if String.eqb format "descriptive"
       then generator (generateDescriptive E combinedContent)
       else if String.eqb format "mindmap"
       then generator (generateMindmapData E combinedContent)
       else if String.eqb format "shortnotes"
       then generator (generateShortNotes E combinedContent)
       else generator (generateKeyPoints E combinedContent) in
     let* processedAt := now E in
     ret (Json true result
               (Metadata url format (duration transcript) processedAt)))
    (fun error =>
       await console_error "Video analysis error:" in
       ret (StatusJson 500 false "Failed to analyze video" (message error))).

End WithEnv.

End VideoRoutes.

(* ===================================================================== *)
(** * Numbers read from strings *)
(* ===================================================================== *)

Module JsNumber.

(** White space that [parseInt] skips, among 8-bit characters. *)
Definition is_white_space (c : ascii) : bool :=
  match nat_of_ascii c with
  | 9 | 10 | 11 | 12 | 13 | 32 | 160 => true
  | _ => false
  end.

Fixpoint trim_start (s : string) : string :=
  match s with
  | String c t => if is_white_space c then trim_start t else s
  | EmptyString => s
  end.

(** Value of a character as a digit, up to radix 36. *)
Definition digit_value (c : ascii) : option nat :=
  let n := nat_of_ascii c in
  if ((48 <=? n) && (n <=? 57))%nat then Some (n - 48)%nat
  else if ((97 <=? n) && (n <=? 122))%nat then Some (n - 87)%nat
  else if ((65 <=? n) && (n <=? 90))%nat then Some (n - 55)%nat
  else None.

(** The longest run of digits of the radix at the start of [s], read as
    a number; [acc] is the value read so far, [None] before the first
    digit. *)
Fixpoint parse_digits (radix : nat) (s : string) (acc : option nat)
  : option nat :=
  match s with
  | EmptyString => acc
  | String c t =>
      match digit_value c with
      | Some d =>
          if (d <? radix)%nat
          then parse_digits radix t (Some (radix * default 0%nat acc + d)%nat)
          else acc
      | None => acc
      end
  end.

(** [parseInt(s)] without a radix: leading white space and a sign are
    skipped, a [0x] prefix selects radix 16, and the digits that follow
    are read up to the first character that is not one. [None] is
    [NaN]. The integer is exact where the JavaScript number is, below
    [2^53]; a negative zero is zero. *)
Definition parseInt (s : string) : option Z :=
  let s := trim_start s in
  let (sign, s) :=
    match s with
    | String "-" t => ((-1)%Z, t)
    | String "+" t => (1%Z, t)
    | _ => (1%Z, s)
    end in
  let (radix, s) :=
    match s with
    | String "0" (String "x" t) | String "0" (String "X" t) => (16%nat, t)
    | _ => (10%nat, s)
    end in
  (fun n => sign * Z.of_nat n)%Z <$> parse_digits radix s None.

End JsNumber.

(* ===================================================================== *)
(** * services/videoService.js: video information and Instagram *)
(* ===================================================================== *)

Module VideoInfo.
Import Sys Data VideoService.
Local Open Scope js_scope.

(** [info.videoDetails] of ytdl: the fields [getVideoInfo] reads. *)
Record video_details : Type := VideoDetails {
  vd_title : string;
  vd_description : string;
  vd_lengthSeconds : string;
  vd_author_name : string;
  vd_viewCount : string;
  vd_uploadDate : string;
  vd_thumbnails : list string;
  vd_keywords : option (list string)
}.

Inductive info_result : Type :=
| InfoOk (details : video_details)
| InfoFails (err : error).

(** Object returned by [getVideoInfo]; [duration] is [None] for [NaN]. *)
Record video_info : Type := VideoInfoOf {
  vi_title : string;
  vi_description : string;
  vi_duration : option Z;
  vi_author : string;
  vi_viewCount : string;
  vi_uploadDate : string;
  vi_thumbnails : list string;
  vi_keywords : list string
}.

Section WithYtdl.
(** [ytdl.getInfo(videoUrl)], by video URL. *)
Variable ytdl_getInfo : string -> info_result.

Definition getInfo (videoUrl : string) : M video_details :=
  match ytdl_getInfo videoUrl with
  | InfoOk details => ret details
  | InfoFails err => throw err
  end.

Definition getVideoInfo (videoUrl : string) : M video_info :=
  try_catch
    (if isYouTubeUrl videoUrl then
       let* details := getInfo videoUrl in
       ret (VideoInfoOf (vd_title details)
                        (vd_description details)
                        (JsNumber.parseInt (vd_lengthSeconds details))
                        (vd_author_name details)
                        (vd_viewCount details)
                        (vd_uploadDate details)
                        (vd_thumbnails details)
                        (default [] (vd_keywords details)))
     else
       throw (Error "Video info extraction not supported for this platform"))
    (fun error =>
       await console_error "Video info error:" in
       throw (Error "Failed to get video information")).

End WithYtdl.

Definition processInstagramVideo (videoUrl : option string) (format : string)
  : M string :=
  throw (Error "Instagram video processing requires additional setup").

(** The members of the exported [VideoService] instance: its two fields
    and the methods of the class. *)
Definition members : list string :=
  ["openai"; "tempDir"; "ensureTempDir"; "extractAudio"; "extractYouTubeAudio";
   "extractInstagramAudio"; "transcribeAudio"; "analyzeVisuals"; "extractFrames";
   "analyzeFrames"; "getVideoInfo"; "processInstagramVideo"; "extractVideoId";
   "isYouTubeUrl"; "isInstagramUrl"; "calculateDuration";
   "extractKeyVisualElements"; "extractTextFromAnalyses";
   "identifyImportantVisuals"; "cleanupFile"].

End VideoInfo.

(* ===================================================================== *)
(** * routes/video.js: POST /info and POST /analyze-instagram;
      controllers/videoController.js *)
(* ===================================================================== *)

Module VideoEndpoints.
Import Sys Data VideoService VideoRoutes VideoInfo.
Local Open Scope js_scope.

(** What the handler of [POST /info] sends. *)
Inductive info_response : Type :=
| InfoJson (success : bool) (data : video_info)
| InfoStatusJson (status : nat) (success : bool) (error message : string).

(** The handler of [POST /info], which the router runs once
    [validateVideoURL] has let the request through. *)
Definition info (ytdl_getInfo : string -> info_result) (body : request_body)
  : M info_response :=
  try_catch
    (let* info := getVideoInfo ytdl_getInfo (url body) in
     ret (InfoJson true info))
    (fun error =>
       await console_error "Video info error:" in
       ret (InfoStatusJson 500 false "Failed to get video info" (message error))).

(** [req.body] as it is received, before any validation, with [url]
    and [format] strings when they are present: either may be
    missing. *)
Record raw_body : Type := RawBody {
  raw_url : option string;
  raw_format : option string
}.

(** What [POST /analyze-instagram] sends. *)
Inductive instagram_response : Type :=
| InstagramJson (success : bool) (data : string)
                (url : option string) (format platform processedAt : string)
| InstagramStatusJson (status : nat) (success : bool) (error message : string).

Definition analyze_instagram (E : env) (body : raw_body) : M instagram_response :=
  try_catch
    (let url := raw_url body in
     let format := default "keypoints" (raw_format body) in
     let* result := processInstagramVideo url format in
     let* processedAt := now E in
     ret (InstagramJson true result url format "instagram" processedAt))
    (fun error =>
       await console_error "Instagram video analysis error:" in
       ret (InstagramStatusJson 500 false "Failed to analyze Instagram video"
                                (message error))).

(** What the controller [analyzeVideo] sends: [res.json(result)] or
    [res.status(code).json({ error })]. *)
Inductive controller_response : Type :=
| ControllerJson (result : string)
| ControllerStatus (status : nat) (error : string).

(** [videoService.analyzeVideo(url)]: the call of a member of the
    service, which throws a [TypeError] when the service has no such
    member. [invoke] stands for the call of a member that exists. *)
Definition call_member (invoke : string -> string -> M string)
    (name argument : string) : M string :=
  if existsb (String.eqb name) VideoInfo.members
  then invoke name argument
  else throw (Error ("videoService." +:+ name +:+ " is not a function")).

(** The controller; [url] is [None] when the body has no [url]. *)
Definition analyzeVideo (invoke : string -> string -> M string)
    (url : option string) : M controller_response :=
  try_catch
    (match url with
     | None | Some EmptyString =>
         ret (ControllerStatus 400 "Video URL is required")
     | Some url =>
         let* result := call_member invoke "analyzeVideo" url in
         ret (ControllerJson result)
     end)
    (fun error =>
       await console_error "Video analysis failed:" in
       ret (ControllerStatus 500 "Failed to analyze video")).

End VideoEndpoints.

(* ===================================================================== *)
(** * middleware/validation.js: validateVideoURL, and the two routes
      it guards *)
(* ===================================================================== *)

Module VideoRouter.
Import Sys Data VideoService VideoRoutes VideoInfo VideoEndpoints.
Local Open Scope js_scope.

(** What a guarded route sends: the answer of the middleware to a body
    it refuses,
    [res.status(400).json({ success: false, error, details })], of
    which the fields named by [details] are kept and Joi's messages
    are left out; or what the handler sends. *)
Inductive routed (A : Type) : Type :=
| Refused (status : nat) (success : bool) (error : string) (fields : list string)
| Handled (answer : A).
Arguments Refused {A} status success error fields.
Arguments Handled {A} answer.

(** The values [format] may take. *)
Definition formats : list string :=
  ["presentation"; "keypoints"; "descriptive"; "mindmap"; "shortnotes"].

Section WithJoi.
(** [Joi.string().uri()] on a string that is not empty. *)
Variable joi_uri : string -> bool.

(** [schemas.videoURL.validate(req.body)] on a body whose [url] and
    [format], when present, are strings. The keys are checked in the
    order of the schema and the validation stops at the first error:
    [url] is required, must not be empty and must be a URI; [format],
    when present, must be one of the five formats. The value is the
    body with the default of [format] filled in. *)
Definition schemas_videoURL_validate (body : raw_body)
  : list string + request_body :=
  match raw_url body with
  | None | Some EmptyString => inl ["url"]
  | Some url =>
      if joi_uri url then
        match raw_format body with
        | None => inr (RequestBody url (Some "keypoints"))
        | Some format =>
            if existsb (String.eqb format) formats
            then inr (RequestBody url (Some format))
            else inl ["format"]
        end
      else inl ["url"]
  end.

(** The middleware [validateVideoURL] in front of the handler [next]:
    it answers a refused body itself, and otherwise replaces
    [req.body] by the validated value and calls the handler. *)
Definition validateVideoURL {A} (next : request_body -> M A) (body : raw_body)
  : M (routed A) :=
  match schemas_videoURL_validate body with
  | inl fields => ret (Refused 400 false "Validation failed" fields)
  | inr value =>
      let* answer := next value in
      ret (Handled answer)
  end.

(** [router.post('/analyze', validateVideoURL, ...)]. *)
Definition post_analyze (E : env) : raw_body -> M (routed response) :=
  validateVideoURL (analyze E).

(** [router.post('/info', validateVideoURL, ...)]. *)
Definition post_info (ytdl_getInfo : string -> info_result)
  : raw_body -> M (routed info_response) :=
  validateVideoURL (info ytdl_getInfo).

End WithJoi.

End VideoRouter.

(* ===================================================================== *)
(** * services/aiService.js: extractText *)
(* ===================================================================== *)

Module AIService.
Import Sys.

(** JavaScript values, as far as [extractText] tells them apart. *)
#[warnings="-register-all"] Inductive value : Type :=
| VUndefined
| VNull
| VBool (b : bool)
| VNumber (q : Q)
| VString (s : string)
| VArray (items : list value)
| VObject (fields : list (string * value)).

(** [if (v)]. *)
Definition truthy (v : value) : bool :=
  match v with
  | VUndefined | VNull => false
  | VBool b => b
  | VNumber q => negb (Qeq_bool q 0)
  | VString s => negb (String.eqb s EmptyString)
  | VArray _ | VObject _ => true
  end.

Fixpoint field (key : string) (fields : list (string * value)) : value :=
  match fields with
  | [] => VUndefined
  | (k, v) :: rest => if String.eqb k key then v else field key rest
  end.

(** [v.key] for a key that is no built-in property: a [TypeError] on
    [undefined] and [null], the field of an object, and [undefined] on
    every other value. *)
Definition property (v : value) (key : string) : error + value :=
  match v with
  | VUndefined =>
      inl (Error ("Cannot read properties of undefined (reading '" +:+ key +:+ "')"))
  | VNull =>
      inl (Error ("Cannot read properties of null (reading '" +:+ key +:+ "')"))
  | VObject fields => inr (field key fields)
  | _ => inr VUndefined
  end.

Section WithStringify.
(** [JSON.stringify]. *)
Variable stringify : value -> value.

Definition extractText (content : value) : error + value :=
  match content with
  | VString _ => inr content
  | _ =>
      match property content "text" with
      | inl e => inl e
      | inr text =>
          if truthy text then inr text
          else
            match property content "transcript" with
            | inl e => inl e
            | inr transcript =>
                if truthy transcript then
                  match property transcript "text" with
                  | inl e => inl e
                  | inr inner => inr (if truthy inner then inner else transcript)
                  end
                else
                  match property content "content" with
                  | inl e => inl e
                  | inr body =>
                      if truthy body then inr body else inr (stringify content)
                  end
            end
      end
  end.

End WithStringify.

End AIService.

Import Regex Sys Data VideoService VideoRoutes.
Import JsNumber VideoInfo VideoEndpoints VideoRouter.
Local Open Scope js_scope.

(* ===================================================================== *)
(** * Vocabulary of the statements and sample environments *)
(* ===================================================================== *)

(** The transcript [transcribeAudio] builds from a response. *)
Definition transcript_of (response : speech_response) : transcript :=
  Transcript (resp_text response)
             (default [] (resp_segments response))
             (calculateDuration (resp_segments response))
             (Js.or_default (resp_language response) "en").

(** The audio branch of the handler: extraction, then transcription. *)
Definition audio_branch (E : env) (videoUrl : string) : M transcript :=
  let* audioPath := extractAudio E videoUrl in
  transcribeAudio E audioPath.

(** The value a computation returned, if it returned. *)
Definition returned {A} (r : outcome A * world) : option A :=
  match fst r with
  | Ret a => Some a
  | _ => None
  end.

(** Number of frame notes of a visual analysis. *)
Definition note_count (va : visual_analysis) : nat :=
  length (default [] (frameAnalyses va)).

(** The world in which the handler starts the audio branch. *)
Definition started (videoUrl : string) (w : world) : world :=
  snd (console_log (camera +:+ " Processing video: " +:+ videoUrl) w).

Definition extraction_error : error :=
  Error "Failed to extract audio from video".

Definition transcription_error : error :=
  Error "Failed to transcribe audio".

(** A watch URL with an eleven-character video token. *)
Definition watch_url : string := "https://www.youtube.com/watch?v=dQw4w9WgXcQ".

(** The pattern of [regExp] with the quantifier [*] after its first dot
    and inside its second group, for comparison. *)
Definition quantified_pattern : re :=
  Seq Bol
 (Seq (Star dot)
 (Seq (Grp 1 (Alt (Seq (lit "youtu") (Seq dot (lit "be/")))
             (Alt (lit "v/")
             (Alt (Seq (lit "u/") (Seq word (chr "/")))
             (Alt (lit "embed/")
             (Alt (lit "watch?v=")
                  (lit "&v=")))))))
 (Seq (Grp 2 (Star (Cls not_delimiter)))
      (Star dot)))).

(** An Instagram post URL. *)
Definition post_url : string := "https://www.instagram.com/p/CqX_9-abZ/?hl=en".

(** A URL of a platform the service does not know. *)
Definition other_url : string := "https://vimeo.com/76979871".

Definition empty_world : world := World ∅ 0 0 [].

Definition sample_response : speech_response :=
  SpeechResponse "hello world"
                 (Some [Segment 0 (3 # 2) "hello"; Segment (3 # 2) (7 # 2) "world"])
                 (Some "en").

(** An environment in which every tool answers the same way on every
    input, with numbered identifiers and clock readings, and in which
    a deletion that is not awaited completes at once. *)
Definition sample_env (audio : transcode_result) (shots : screenshots_result)
    (speech : speech_result) (see : string -> vision_result) : env :=
  Env "/app/temp"
      (fun n => "id" +:+ Js.of_nat n)
      (fun n => "t" +:+ Js.of_nat n)
      (fun _ => audio) (fun _ => DownloadFinish) (fun _ => shots)
      (fun _ => speech) see
      (fun _ => Generated "presentation") (fun _ => Generated "keypoints")
      (fun _ => Generated "descriptive") (fun _ => Generated "mindmap")
      (fun _ => Generated "shortnotes")
      (fun _ => true).

(** All tools succeed. *)
Definition healthy_env : env :=
  sample_env TranscodeEnd ScreenshotsEnd (SpeechOk sample_response)
             (fun _ => VisionOk [Some "a chart"]).

(** The audio transcoder fails, leaving no file; the visual tools work. *)
Definition audio_down_env : env :=
  sample_env (TranscodeError false (Error "Input stream error"))
             ScreenshotsEnd (SpeechOk sample_response)
             (fun _ => VisionOk [Some "a chart"]).

(** A frame is analysed when its file can be read and the vision
    service answers with at least one choice. *)
Definition frame_ok (E : env) (files : gset string) (framePath : string) : bool :=
  bool_decide (framePath ∈ files) &&
  match vision E framePath with
  | VisionOk (_ :: _) => true
  | _ => false
  end.

(** The note of a frame carries the first choice of the answer. *)
Definition note_of_answer (E : env) (a : frame_analysis) : Prop :=
  exists others, vision E (frame a) = VisionOk (Some (analysis a) :: others).

Definition is_unlink (e : event) : bool :=
  match e with EvUnlink _ => true | _ => false end.

Definition is_vision (e : event) : bool :=
  match e with EvVision _ => true | _ => false end.

(** Path of the downloaded video of [extractFrames]. *)
Definition temp_video_path (E : env) (videoId : string) : string :=
  Js.path_join (tempDir E) (videoId +:+ "-temp.mp4").

(** The vision service fails on the frames of the given numbers. *)
Definition vision_failing_on (numbers : list nat) (framePath : string)
  : vision_result :=
  if existsb (fun i => String.eqb framePath
                         ("/app/temp/id0-frame-" +:+ Js.of_nat i +:+ ".png"))
             numbers
  then VisionFails (Error "vision request failed")
  else VisionOk [Some "a chart"].

(** The audio transcoder fails after it has created its output file. *)
Definition audio_partial_env : env :=
  sample_env (TranscodeError true (Error "Input stream error"))
             ScreenshotsEnd (SpeechOk sample_response)
             (fun _ => VisionOk [Some "a chart"]).

(** The screenshot command fails after it has written three frames. *)
Definition frames_partial_env : env :=
  sample_env TranscodeEnd (ScreenshotsError 3 (Error "ffmpeg exited with code 1"))
             (SpeechOk sample_response) (fun _ => VisionOk [Some "a chart"]).

(** The environment in which the deletions that are not awaited are
    still in flight when their caller settles, and everything else is
    as in [E]. *)
Definition slow_unlink (E : env) : env :=
  Env (tempDir E) (uuid_source E) (clock_source E)
      (ytdl_audio E) (ytdl_video E) (ffmpeg_screenshots E)
      (speech_to_text E) (vision E)
      (generatePresentation E) (generateKeyPoints E) (generateDescriptive E)
      (generateMindmapData E) (generateShortNotes E)
      (fun _ => false).

(** The statements of the handler that follow the two branches: the
    generator chosen by the format, then the response. *)
Definition reply (E : env) (body : request_body) (transcript : transcript)
    (visualAnalysis : visual_analysis) : M response :=
  let combinedContent :=
    CombinedContent transcript visualAnalysis (url body) in
  let* result :=
    if String.eqb (default "keypoints" (format body)) "presentation"
    then generator (generatePresentation E combinedContent)
    else if String.eqb (default "keypoints" (format body)) "keypoints"
    then generator (generateKeyPoints E combinedContent)
    else if String.eqb (default "keypoints" (format body)) "descriptive"
    then generator (generateDescriptive E combinedContent)
    else if String.eqb (default "keypoints" (format body)) "mindmap"
    then generator (generateMindmapData E combinedContent)
    else if String.eqb (default "keypoints" (format body)) "shortnotes"
    then generator (generateShortNotes E combinedContent)
    else generator (generateKeyPoints E combinedContent) in
  let* processedAt := now E in
  ret (Json true result
            (Metadata (url body) (default "keypoints" (format body))
                      (duration transcript) processedAt)).

(** The [catch] block of the handler. *)
Definition reply_failure (error : error) : M response :=
  await console_error "Video analysis error:" in
  ret (StatusJson 500 false "Failed to analyze video" (message error)).

(** The tags [extractKeyVisualElements] can report. *)
Definition visual_tags : list string :=
  ["Charts/Graphs detected"; "Important text elements"; "Diagrams/Flowcharts"].

(** The text of a note mentions a keyword, whatever its letter case. *)
Definition mentions (keyword : string) (a : frame_analysis) : bool :=
  Js.includes (Js.toLowerCase (analysis a)) keyword.

(** The language of a regular expression: [denotes p r c] when [r],
    started after [p] characters of the subject, can match the
    characters [c]. An iteration of [*] or [+] is never empty. *)
Inductive denotes : nat -> re -> string -> Prop :=
| D_Eps p : denotes p Eps EmptyString
| D_Bol : denotes 0 Bol EmptyString
| D_Cls p f c : f c = true -> denotes p (Cls f) (String c EmptyString)
| D_Seq p r1 r2 a b :
    denotes p r1 a -> denotes (p + String.length a) r2 b ->
    denotes p (Seq r1 r2) (a +:+ b)
| D_AltL p r1 r2 a : denotes p r1 a -> denotes p (Alt r1 r2) a
| D_AltR p r1 r2 a : denotes p r2 a -> denotes p (Alt r1 r2) a
| D_OptSome p r a : denotes p r a -> denotes p (Opt r) a
| D_OptNone p r : denotes p (Opt r) EmptyString
| D_StarNil p r : denotes p (Star r) EmptyString
| D_StarCons p r a b :
    denotes p r a -> a <> EmptyString ->
    denotes (p + String.length a) (Star r) b ->
    denotes p (Star r) (a +:+ b)
| D_Plus p r a b :
    denotes p r a -> denotes (p + String.length a) (Star r) b ->
    denotes p (Plus r) (a +:+ b)
| D_Grp p n r a : denotes p r a -> denotes p (Grp n r) a.

(** Every character of a string passes a test. *)
Fixpoint all_chars (f : ascii -> bool) (s : string) : bool :=
  match s with
  | EmptyString => true
  | String c t => f c && all_chars f t
  end.

(** The beginnings of the URLs of a host: an optional scheme, an
    optional [www.], the host and a slash. *)
Definition url_prefixes (hosts : list string) : list string :=
  flat_map (fun scheme =>
    flat_map (fun www => map (fun host => scheme +:+ www +:+ host +:+ "/") hosts)
             [EmptyString; "www."])
    [EmptyString; "http://"; "https://"].

Definition youtube_prefixes : list string :=
  url_prefixes ["youtube.com"; "youtu.be"].

Definition instagram_prefixes : list string :=
  url_prefixes ["instagram.com"].

(** A note whose text quotes two words. *)
Definition quoted_note : frame_analysis :=
  FrameAnalysis "/app/temp/id0-frame-1.png"
    ("The slide says " +:+ String "034" ("Q1 results" +:+ String "034" " in bold"))
    "t0".

(** The object [POST /analyze] hands to a generator:
    [{ transcript, visualNotes, url }], with a transcript whose first
    member is [text]. *)
Definition content_value (text : string)
    (transcript_rest : list (string * AIService.value))
    (visualNotes url : AIService.value) : AIService.value :=
  AIService.VObject
    [("transcript",
      AIService.VObject (("text", AIService.VString text) :: transcript_rest));
     ("visualNotes", visualNotes);
     ("url", url)].

(** The video information built from the details ytdl reports. *)
Definition video_info_of (details : video_details) : video_info :=
  VideoInfoOf (vd_title details)
              (vd_description details)
              (JsNumber.parseInt (vd_lengthSeconds details))
              (vd_author_name details)
              (vd_viewCount details)
              (vd_uploadDate details)
              (vd_thumbnails details)
              (default [] (vd_keywords details)).

(** Details of a video of 212 seconds, without keywords. *)
Definition sample_details : video_details :=
  VideoDetails "A title" "A description" "212" "An author" "1000"
               "2020-01-01" ["https://i.ytimg.com/vi/dQw4w9WgXcQ/default.jpg"]
               None.

(** The scratch directory when [extractFrames] settles, having started
    on [before] and written the first [written] frames: the video is
    gone when its deletion has completed by then, and still there when
    the deletion is in flight. *)
Definition after_extraction (E : env) (videoId : string) (written : nat)
    (before : gset string) : gset string :=
  let files :=
    list_to_set (map (frame_path E videoId) (seq 1 written))
      ∪ ({[temp_video_path E videoId]} ∪ before) in
  if unlink_settles_first E (temp_video_path E videoId)
  then files ∖ {[temp_video_path E videoId]}
  else files.

(** The element pushed for a frame carries the first choice of the
    answer, a text or a null content. *)
Definition pushed_of_answer (E : env) (a : pushed_analysis) : Prop :=
  exists others,
    vision E (pushed_frame a) = VisionOk (pushed_analysis_content a :: others).

(** The first choice of the answer for a frame is a null content. *)
Definition null_answer (E : env) (framePath : string) : bool :=
  match vision E framePath with
  | VisionOk (None :: _) => true
  | _ => false
  end.

(** The object [analyzeFrames] returns from its outer [catch] block. *)
Definition no_analyses : visual_analysis :=
  VisualAnalysis (Some []) [] [] None [].

(** The vision service fails on the third and the sixth frame and
    answers the ninth with a null content. *)
Definition vision_with_null_content (framePath : string) : vision_result :=
  if String.eqb framePath "/app/temp/id0-frame-9.png" then VisionOk [None]
  else vision_failing_on [3; 6]%nat framePath.

(** A URI test that accepts the strings with the scheme [https]. *)
Definition https_only (url : string) : bool :=
  Js.starts_with "https://" url.

(** What the handler of [POST /info] sends for a validated URL. *)
Definition info_answer (ytdl_getInfo : string -> info_result) (url : string)
  : info_response :=
  if isYouTubeUrl url then
    match ytdl_getInfo url with
    | InfoOk details => InfoJson true (video_info_of details)
    | InfoFails _ =>
        InfoStatusJson 500 false "Failed to get video info"
                       "Failed to get video information"
    end
  else
    InfoStatusJson 500 false "Failed to get video info"
                   "Failed to get video information".

(** The object [analyzeVisuals] returns from its [catch] block. *)
Definition fallback_visuals : visual_analysis :=
  VisualAnalysis None [] [] (Some []) [].

(* ===================================================================== *)
(** * Basic facts about the monad and the file operations *)
(* ===================================================================== *)

Lemma append_assoc (a b c : string) : (a +:+ b) +:+ c = a +:+ (b +:+ c).
Proof.
  induction a as [|x a IH]; [reflexivity |].
  change (String x ((a +:+ b) +:+ c) = String x (a +:+ (b +:+ c))).
  now rewrite IH.
Qed.

Lemma append_inj_prefix (p a b : string) : p +:+ a = p +:+ b -> a = b.
Proof.
  induction p as [|x p IH]; intros H; [exact H |].
  apply IH. change (String x (p +:+ a) = String x (p +:+ b)) in H.
  now injection H.
Qed.

Lemma bind_Ret {A B} (m : M A) (k : A -> M B) (w w' : world) (a : A) :
  m w = (Ret a, w') -> bind m k w = k a w'.
Proof. intros Hm. unfold bind. now rewrite Hm. Qed.

Lemma bind_Throw {A B} (m : M A) (k : A -> M B) (w w' : world) (e : error) :
  m w = (Throw e, w') -> bind m k w = (Throw e, w').
Proof. intros Hm. unfold bind. now rewrite Hm. Qed.

Lemma bind_Pending {A B} (m : M A) (k : A -> M B) (w w' : world) :
  m w = (Pending, w') -> bind m k w = (Pending, w').
Proof. intros Hm. unfold bind. now rewrite Hm. Qed.

Lemma try_catch_Ret {A} (body : M A) (handler : error -> M A)
    (w w' : world) (a : A) :
  body w = (Ret a, w') -> try_catch body handler w = (Ret a, w').
Proof. intros Hm. unfold try_catch. now rewrite Hm. Qed.

Lemma try_catch_Throw {A} (body : M A) (handler : error -> M A)
    (w w' : world) (e : error) :
  body w = (Throw e, w') -> try_catch body handler w = handler e w'.
Proof. intros Hm. unfold try_catch. now rewrite Hm. Qed.

Lemma try_catch_Pending {A} (body : M A) (handler : error -> M A)
    (w w' : world) :
  body w = (Pending, w') -> try_catch body handler w = (Pending, w').
Proof. intros Hm. unfold try_catch. now rewrite Hm. Qed.

(** Lower case of a word that begins with the Kelvin sign. *)
Example toLowerCase_kelvin_sign :
  Js.toLowerCase (String "226" (String "132" (String "170" "EY, Chart"))) =
    "key, chart".
Proof. reflexivity. Qed.

Lemma readFile_present (p : string) (w : world) :
  p ∈ fs w ->
  readFile p w =
    (Ret p, World (fs w) (uuids w) (ticks w) (trace w ++ [EvRead p])).
Proof. intros Hin. unfold readFile. now case_decide. Qed.

Lemma readFile_absent (p : string) (w : world) :
  p ∉ fs w ->
  readFile p w = (Throw (Error "ENOENT: no such file or directory"), w).
Proof. intros Hout. unfold readFile. now case_decide. Qed.

(** [cleanupFile] always returns: it removes the file when it is there
    and touches nothing but the trace otherwise. *)
Lemma cleanupFile_spec (p : string) (w : world) :
  exists w',
    cleanupFile p w = (Ret tt, w') /\
    fs w' = fs w ∖ {[p]} /\ uuids w' = uuids w /\ ticks w' = ticks w /\
    trace w' = trace w ++
      [if decide (p ∈ fs w) then EvUnlink p
       else EvError ("Failed to cleanup file " +:+ p +:+ ":")].
Proof.
  unfold cleanupFile, try_catch, unlink, console_error, emit.
  destruct (decide (p ∈ fs w)) as [Hin | Hout]; eexists; split; try reflexivity;
    simpl; repeat split; try reflexivity.
  symmetry. apply difference_disjoint_L. now apply disjoint_singleton_r.
Qed.

Ltac cleanup_step p w :=
  let w' := fresh "w" in
  let Hrun := fresh "Hrun" in
  let Hfs := fresh "Hfs" in
  let Hu := fresh "Hu" in
  let Ht := fresh "Ht" in
  let Htr := fresh "Htr" in
  destruct (cleanupFile_spec p w) as (w' & Hrun & Hfs & Hu & Ht & Htr).

(* ===================================================================== *)
(** * Cleanup never throws (C10) *)
(* ===================================================================== *)

(** C10. For every path and every state of the scratch directory,
    [cleanupFile] returns normally and leaves the path absent. A
    deletion that fails, because the file was never created or is
    already deleted, is caught and logged and leaves the directory as it
    was. Deleting twice in a row returns normally as well, and a stage
    that cleans up before returning a value returns that same value. *)
Theorem cleanupFile_never_throws (p : string) (w : world) :
  fst (cleanupFile p w) = Ret tt /\
  fs (snd (cleanupFile p w)) = fs w ∖ {[p]} /\
  trace (snd (cleanupFile p w)) =
    trace w ++ [if decide (p ∈ fs w) then EvUnlink p
                else EvError ("Failed to cleanup file " +:+ p +:+ ":")] /\
  fst ((await cleanupFile p in cleanupFile p) w) = Ret tt /\
  (forall (A : Type) (result : A),
     fst ((await cleanupFile p in ret result) w) = Ret result).
Proof.
  cleanup_step p w.
  rewrite Hrun; simpl. split; [reflexivity |].
  split; [exact Hfs |]. split; [exact Htr |]. split.
  - unfold bind. rewrite Hrun.
    cleanup_step p w0. now rewrite Hrun0.
  - intros A result. unfold bind. now rewrite Hrun.
Qed.

(* ===================================================================== *)
(** * Transcription (C8, C9) *)
(* ===================================================================== *)

(** The two ways [transcribeAudio] ends: with the transcript of the
    service's response, or with its own error; the audio file is gone in
    both. *)
Lemma transcribeAudio_cases (E : env) (audioPath : string) (w : world) :
  (exists response w',
     transcribeAudio E audioPath w = (Ret (transcript_of response), w') /\
     audioPath ∈ fs w /\
     speech_to_text E audioPath = SpeechOk response /\
     fs w' = fs w ∖ {[audioPath]}) \/
  (exists w',
     transcribeAudio E audioPath w =
       (Throw (Error "Failed to transcribe audio"), w') /\
     (audioPath ∉ fs w \/ exists err, speech_to_text E audioPath = SpeechFails err) /\
     fs w' = fs w ∖ {[audioPath]}).
Proof.
  destruct (decide (audioPath ∈ fs w)) as [Hin | Hout];
    [destruct (speech_to_text E audioPath) as [response | err] eqn:Hsp |].
  - left. unfold transcribeAudio, try_catch, bind at 1.
    rewrite (readFile_present _ _ Hin).
    unfold bind at 1, transcriptions_create, bind at 1, emit; simpl.
    rewrite Hsp. unfold bind, ret.
    match goal with
    | |- context [cleanupFile audioPath ?w1] => cleanup_step audioPath w1
    end.
    rewrite Hrun. exists response, w0.
    split; [reflexivity |]. split; [assumption |]. split; [reflexivity |].
    rewrite Hfs. reflexivity.
  - right. unfold transcribeAudio, try_catch, bind at 1.
    rewrite (readFile_present _ _ Hin).
    unfold bind at 1, transcriptions_create, bind at 1, emit; simpl.
    rewrite Hsp. unfold throw, bind, console_error, emit; simpl.
    match goal with
    | |- context [cleanupFile audioPath ?w1] => cleanup_step audioPath w1
    end.
    rewrite Hrun. exists w0.
    split; [reflexivity |]. split; [right; now exists err |].
    rewrite Hfs. reflexivity.
  - right. unfold transcribeAudio, try_catch, bind at 1.
    rewrite (readFile_absent _ _ Hout).
    unfold bind, console_error, emit; simpl.
    match goal with
    | |- context [cleanupFile audioPath ?w1] => cleanup_step audioPath w1
    end.
    rewrite Hrun. exists w0.
    split; [reflexivity |]. split; [now left |].
    rewrite Hfs. reflexivity.
Qed.

(** C8. Whatever the state of the scratch directory and whatever the
    speech-to-text service answers, once [transcribeAudio] has completed
    the audio file it was given is no longer in the scratch directory:
    both when it returns a transcript and when it throws its
    transcription error. *)
Theorem transcribeAudio_deletes_input (E : env) (audioPath : string) (w : world) :
  (audioPath ∉ fs (snd (transcribeAudio E audioPath w))) /\
  ((exists t, fst (transcribeAudio E audioPath w) = Ret t) \/
   fst (transcribeAudio E audioPath w) =
     Throw (Error "Failed to transcribe audio")).
Proof.
  destruct (transcribeAudio_cases E audioPath w)
    as [(response & w' & Hrun & _ & _ & Hfs) | (w' & Hrun & _ & Hfs)];
    rewrite Hrun; simpl; (split; [rewrite Hfs; set_solver |]).
  - left. now eexists.
  - now right.
Qed.

(** [calculateDuration] on the segment array of a response. *)
Lemma calculateDuration_last (segs : list segment) :
  (calculateDuration (Some segs) ==
   match last segs with Some s => seg_end s | None => 0 end)%Q.
Proof.
  unfold calculateDuration. destruct (last segs) as [s |]; [| reflexivity].
  destruct (Qeq_bool (seg_end s) 0) eqn:Hz; [| reflexivity].
  symmetry. now apply Qeq_bool_iff.
Qed.

(** C9. In every transcript returned by [transcribeAudio] the duration
    equals the end offset of the last segment of the transcript's
    segment sequence, and is zero when that sequence is empty. *)
Theorem transcript_duration_is_last_end
    (E : env) (audioPath : string) (w w' : world) (t : transcript) :
  transcribeAudio E audioPath w = (Ret t, w') ->
  (duration t ==
   match last (segments t) with Some s => seg_end s | None => 0 end)%Q.
Proof.
  intros Hret.
  destruct (transcribeAudio_cases E audioPath w)
    as [(response & w1 & Hrun & _ & _ & _) | (w1 & Hrun & _)];
    rewrite Hrun in Hret; [| discriminate].
  injection Hret as <- _.
  unfold transcript_of; simpl.
  destruct (resp_segments response) as [segs |]; simpl.
  - apply calculateDuration_last.
  - reflexivity.
Qed.

Lemma transcript_duration_is_last_end_witness :
  (duration (transcript_of sample_response) ==
   match last (segments (transcript_of sample_response)) with
   | Some s => seg_end s
   | None => 0
   end)%Q.
Proof.
  apply (transcript_duration_is_last_end
           healthy_env "/app/temp/id0-id1.wav"
           (World {[ "/app/temp/id0-id1.wav" ]} 2 0 [])
           (snd (transcribeAudio healthy_env "/app/temp/id0-id1.wav"
                   (World {[ "/app/temp/id0-id1.wav" ]} 2 0 [])))).
  vm_compute. reflexivity.
Defined.

(* ===================================================================== *)
(** * Media identifiers (C4) *)
(* ===================================================================== *)

Lemma run_Seq_In (a b : re) (s m : mstate) :
  In m (run (Seq a b) s) <-> exists s1, In s1 (run a s) /\ In m (run b s1).
Proof. simpl. apply in_flat_map. Qed.

Lemma head_In {A} (l : list A) (x : A) : head l = Some x -> In x l.
Proof. destruct l; simpl; [discriminate | intros [= ->]; now left]. Qed.

(** An anchored regexp matches at the first offset or not at all. *)
Lemma match_at_anchored (r : re) (offset : nat) (s : string) :
  offset <> 0%nat -> match_at (Seq Bol r) offset s = None.
Proof.
  intros Hpos. unfold match_at; simpl.
  destruct offset; [contradiction | reflexivity].
Qed.

Lemma exec_from_anchored (r : re) (s : string) (offset : nat) :
  offset <> 0%nat -> exec_from (Seq Bol r) offset s = None.
Proof.
  revert offset. induction s as [|c s IH]; intros offset Hpos; simpl;
    rewrite (match_at_anchored _ _ _ Hpos); [reflexivity |].
  now apply IH.
Qed.

Lemma exec_anchored (r : re) (s : string) :
  exec (Seq Bol r) s = match_at (Seq Bol r) 0 s.
Proof.
  unfold exec. destruct s as [|c s]; simpl;
    destruct (match_at (Seq Bol r) 0 _); try reflexivity.
  now apply exec_from_anchored.
Qed.

(** Iterating a one-character class records no capture. *)
Lemma iter_class_caps (p : ascii -> bool) (n : nat) (s m : mstate) :
  In m (iter (run (Cls p)) n s) -> caps m = caps s.
Proof.
  revert s. induction n as [|n IH]; intros s; simpl.
  - intros [<- | []]. reflexivity.
  - rewrite in_app_iff, in_flat_map.
    intros [(s1 & Hstep & Hm) | [<- | []]]; [| reflexivity].
    unfold step_char in Hstep.
    destruct (rest s) as [|c t]; [contradiction |].
    destruct (p c); [| contradiction].
    destruct Hstep as [<- | []].
    destruct (progressed _ _); [| contradiction].
    now rewrite (IH _ Hm).
Qed.

(** A group around a one-character class captures one character. *)
Lemma group_class_cap (g : nat) (p : ascii -> bool) (s m : mstate) :
  In m (run (Grp g (Cls p)) s) ->
  exists c, caps m = (g, String c EmptyString) :: caps s.
Proof.
  simpl. rewrite in_map_iff. intros (s1 & <- & Hstep).
  unfold step_char in Hstep.
  destruct (rest s) as [|c t] eqn:Hrest; [contradiction |].
  destruct (p c); [| contradiction].
  destruct Hstep as [<- | []].
  exists c. unfold set_cap; simpl. rewrite Hrest.
  replace (S (pos s) - pos s)%nat with 1%nat by lia.
  simpl. now destruct t.
Qed.

(** The second group of [regExp] never holds more than one character. *)
Lemma regExp_second_group (s m : mstate) :
  In m (run regExp s) -> String.length (group_of 2 m) = 1%nat.
Proof.
  unfold regExp. intros Hm.
  apply run_Seq_In in Hm as (s1 & _ & Hm).
  apply run_Seq_In in Hm as (s2 & _ & Hm).
  apply run_Seq_In in Hm as (s3 & _ & Hm).
  apply run_Seq_In in Hm as (s4 & Hgrp & Hm).
  apply group_class_cap in Hgrp as (c & Hcaps).
  apply iter_class_caps in Hm.
  unfold group_of, group. rewrite Hm, Hcaps. reflexivity.
Qed.

(** For a YouTube URL [extractVideoId] never returns a token of the URL:
    the length test on the second group always fails and the identifier
    is drawn from the random source. *)
Lemma extractVideoId_youtube (E : env) (videoUrl : string) (w : world) :
  isYouTubeUrl videoUrl = true ->
  extractVideoId E videoUrl w = uuidv4 E w.
Proof.
  intros Hyt. unfold extractVideoId. rewrite Hyt.
  destruct (exec regExp videoUrl) as [m |] eqn:Hexec; [| reflexivity].
  unfold regExp in Hexec. rewrite exec_anchored in Hexec.
  apply head_In, regExp_second_group in Hexec.
  now rewrite Hexec.
Qed.

(** For an Instagram URL with a [/p/token] segment the identifier is the
    token, whatever the state of the random source. *)
Lemma extractVideoId_instagram
    (E : env) (videoUrl : string) (m : mstate) (w : world) :
  isYouTubeUrl videoUrl = false ->
  isInstagramUrl videoUrl = true ->
  exec instagramIdRegex videoUrl = Some m ->
  extractVideoId E videoUrl w = (Ret (group_of 1 m), w).
Proof.
  intros Hyt Hig Hexec. unfold extractVideoId.
  now rewrite Hyt, Hig, Hexec.
Qed.

(** The platform tests and the identifier patterns on sample URLs. *)
Example platform_tests :
  isYouTubeUrl watch_url = true /\
  isYouTubeUrl "youtu.be/dQw4w9WgXcQ" = true /\
  isYouTubeUrl "http://youtube.com/embed/dQw4w9WgXcQ" = true /\
  isYouTubeUrl other_url = false /\
  isYouTubeUrl "https://example.com/?u=https://www.youtube.com/" = false /\
  isInstagramUrl post_url = true /\
  isInstagramUrl watch_url = false.
Proof. vm_compute. repeat split. Qed.

Example instagram_token :
  group_of 1 <$> exec instagramIdRegex post_url = Some "CqX_9-abZ".
Proof. vm_compute. reflexivity. Qed.

(** With its quantifiers the pattern does find the token; as written in
    the service it finds, at best, one character. *)
Example quantified_pattern_finds_token :
  group_of 2 <$> exec quantified_pattern watch_url = Some "dQw4w9WgXcQ" /\
  group_of 2 <$> exec regExp "xwatch?v=dQw4w9WgXcQ" = Some "d".
Proof. vm_compute. split; reflexivity. Qed.

(** [extractVideoId] always returns, and touches nothing but the random
    source. *)
Lemma extractVideoId_returns (E : env) (videoUrl : string) (w : world) :
  exists id n,
    extractVideoId E videoUrl w =
      (Ret id, World (fs w) (n + uuids w) (ticks w) (trace w)).
Proof.
  assert (Hu : exists id n,
             uuidv4 E w = (Ret id, World (fs w) (n + uuids w) (ticks w) (trace w))).
  { exists (uuid_source E (uuids w)), 1%nat. reflexivity. }
  assert (Hr : forall id : string, exists id' n,
             ret id w = (Ret id', World (fs w) (n + uuids w) (ticks w) (trace w))).
  { intros id. exists id, 0%nat. now destruct w. }
  unfold extractVideoId.
  destruct (isYouTubeUrl videoUrl).
  - destruct (exec regExp videoUrl) as [m |]; [| exact Hu].
    destruct (_ =? _)%nat; [apply Hr | exact Hu].
  - destruct (isInstagramUrl videoUrl); [| exact Hu].
    destruct (exec instagramIdRegex videoUrl) as [m |]; [apply Hr | exact Hu].
Qed.

(** C4. On the YouTube URL [watch_url], whose video token
    [dQw4w9WgXcQ] has eleven characters, [extractVideoId] does not return
    the token: a first call returns the next identifier of the random
    source and a second call on the same URL the one after it, so the
    media identifier of a parseable URL changes from call to call. *)
Theorem extractVideoId_youtube_token_not_extracted (E : env) (w : world) :
  isYouTubeUrl watch_url = true /\
  exec regExp watch_url = None /\
  fst (extractVideoId E watch_url w) = Ret (uuid_source E (uuids w)) /\
  fst (extractVideoId E watch_url (snd (extractVideoId E watch_url w))) =
    Ret (uuid_source E (S (uuids w))).
Proof.
  assert (Hyt : isYouTubeUrl watch_url = true) by (vm_compute; reflexivity).
  split; [exact Hyt |].
  split; [vm_compute; reflexivity |].
  rewrite (extractVideoId_youtube E _ w Hyt).
  rewrite (extractVideoId_youtube E _ _ Hyt).
  split; reflexivity.
Qed.

(* ===================================================================== *)
(** * Audio extraction and the request handler (C6, C1) *)
(* ===================================================================== *)

(** The two ways [extractAudio] ends. *)
Lemma extractAudio_cases (E : env) (videoUrl : string) (w : world) :
  (exists audioPath w',
     extractAudio E videoUrl w = (Ret audioPath, w') /\
     isYouTubeUrl videoUrl = true /\
     ytdl_audio E videoUrl = TranscodeEnd /\
     fs w' = {[audioPath]} ∪ fs w) \/
  (exists w',
     extractAudio E videoUrl w = (Throw extraction_error, w') /\
     (isYouTubeUrl videoUrl = false \/
      exists partial err, ytdl_audio E videoUrl = TranscodeError partial err) /\
     (fs w' = fs w \/
      exists audioPath err,
        ytdl_audio E videoUrl = TranscodeError true err /\
        fs w' = {[audioPath]} ∪ fs w)).
Proof.
  destruct (extractVideoId_returns E videoUrl w) as (id & n & Hid).
  destruct (isYouTubeUrl videoUrl) eqn:Hyt;
    [destruct (ytdl_audio E videoUrl) as [| partial err] eqn:Hff |].
  - left. unfold extractAudio, try_catch, bind at 1. rewrite Hid.
    unfold bind at 1, uuidv4; simpl. rewrite Hyt.
    unfold extractYouTubeAudio. rewrite Hff.
    eexists _, _. split; [reflexivity |]. now simpl.
  - right. unfold extractAudio, try_catch, bind at 1. rewrite Hid.
    unfold bind at 1, uuidv4; simpl. rewrite Hyt.
    unfold extractYouTubeAudio. rewrite Hff.
    destruct partial; eexists; (split; [reflexivity |]);
      (split; [right; eauto |]); simpl; [right | left]; eauto.
  - right. unfold extractAudio, try_catch, bind at 1. rewrite Hid.
    unfold bind at 1, uuidv4; simpl. rewrite Hyt.
    destruct (isInstagramUrl videoUrl);
      eexists; (split; [reflexivity |]); (split; [now left |]); now left.
Qed.

(** C6, as the code has it. [extractAudio] fails when the URL is not a
    YouTube URL (an unknown platform, or Instagram, whose extraction is
    not implemented) and when the download or transcode stream of a
    YouTube URL errors; in every one of these cases the caller receives
    the same error, [Failed to extract audio from video], so the kinds
    of failure cannot be told apart. *)
Theorem extractAudio_single_error (E : env) (videoUrl : string) (w : world) :
  (isYouTubeUrl videoUrl = false \/
   exists partial err, ytdl_audio E videoUrl = TranscodeError partial err) ->
  fst (extractAudio E videoUrl w) = Throw extraction_error.
Proof.
  intros Hfail.
  destruct (extractAudio_cases E videoUrl w)
    as [(audioPath & w' & _ & Hyt & Hff & _) | (w' & Hrun & _)].
  - destruct Hfail as [Hno | (partial & err & Herr)]; congruence.
  - now rewrite Hrun.
Qed.

Lemma extractAudio_single_error_witness :
  fst (extractAudio audio_down_env watch_url empty_world) = Throw extraction_error.
Proof.
  apply extractAudio_single_error. right.
  exists false, (Error "Input stream error"). reflexivity.
Defined.

(** Against C6 as stated: an unsupported platform and a broken
    transcode stream end in the very same error. *)
Lemma extractAudio_errors_coincide :
  isYouTubeUrl other_url = false /\ isInstagramUrl other_url = false /\
  isYouTubeUrl watch_url = true /\
  ytdl_audio audio_down_env watch_url =
    TranscodeError false (Error "Input stream error") /\
  fst (extractAudio audio_down_env other_url empty_world) =
    Throw (Error "Failed to extract audio from video") /\
  fst (extractAudio audio_down_env watch_url empty_world) =
    Throw (Error "Failed to extract audio from video").
Proof. vm_compute. repeat split. Qed.

(** Errors of the audio branch. *)
Lemma audio_branch_errors (E : env) (videoUrl : string) (w w' : world) (e : error) :
  audio_branch E videoUrl w = (Throw e, w') ->
  e = extraction_error \/ e = transcription_error.
Proof.
  unfold audio_branch, bind. intros Hrun.
  destruct (extractAudio_cases E videoUrl w)
    as [(audioPath & w1 & Hex & _) | (w1 & Hex & _)]; rewrite Hex in Hrun.
  - destruct (transcribeAudio_cases E audioPath w1)
      as [(response & w2 & Htr & _) | (w2 & Htr & _)]; rewrite Htr in Hrun.
    + discriminate.
    + right. now injection Hrun as <- _.
  - left. now injection Hrun as <- _.
Qed.

(** C1, as the code has it. When the audio branch of a request fails,
    in extraction or in transcription, the handler answers with status
    500, [success: false], the error [Failed to analyze video] and the
    message of the audio error, which is one of the two messages of the
    audio stages. The request ends there: the only effect after the
    failure is the log line of the handler, so the visual branch is not
    started. *)
Theorem analyze_fails_with_audio_branch
    (E : env) (body : request_body) (w w' : world) (e : error) :
  audio_branch E (url body) (started (url body) w) = (Throw e, w') ->
  analyze E body w =
    (Ret (StatusJson 500 false "Failed to analyze video" (message e)),
     World (fs w') (uuids w') (ticks w')
           (trace w' ++ [EvError "Video analysis error:"])) /\
  (message e = "Failed to extract audio from video" \/
   message e = "Failed to transcribe audio").
Proof.
  intros Hrun. split.
  - unfold analyze, try_catch, bind at 1.
    unfold audio_branch, bind, started in Hrun. unfold console_log, emit in *.
    simpl in *. unfold bind at 1.
    destruct (extractAudio E (url body) _) as [[audioPath | e1 |] w1].
    + unfold bind at 1.
      destruct (transcribeAudio E audioPath w1) as [[t | e2 |] w2];
        try discriminate.
      now injection Hrun as -> ->.
    + now injection Hrun as -> ->.
    + discriminate.
  - destruct (audio_branch_errors _ _ _ _ _ Hrun) as [-> | ->]; [left | right];
      reflexivity.
Qed.

Lemma analyze_fails_with_audio_branch_witness :
  analyze audio_down_env (RequestBody watch_url None) empty_world =
    (Ret (StatusJson 500 false "Failed to analyze video"
                     "Failed to extract audio from video"),
     World ∅ 2 0 [EvLog (camera +:+ " Processing video: " +:+ watch_url);
                  EvError "FFmpeg error:";
                  EvError "Audio extraction error:";
                  EvError "Video analysis error:"]).
Proof.
  refine (proj1 (analyze_fails_with_audio_branch audio_down_env
                   (RequestBody watch_url None) empty_world
                   (World ∅ 2 0 [EvLog (camera +:+ " Processing video: " +:+ watch_url);
                                 EvError "FFmpeg error:";
                                 EvError "Audio extraction error:"])
                   extraction_error _)).
  vm_compute. reflexivity.
Defined.

(** Against C1 as stated: in [audio_down_env] the audio branch fails
    and the visual branch, run on its own, succeeds with a note for each
    of the ten frames; the request fails all the same. *)
Lemma analyze_not_degraded :
  fst (audio_branch audio_down_env watch_url (started watch_url empty_world)) =
    Throw extraction_error /\
  note_count <$> returned (analyzeVisuals audio_down_env watch_url empty_world) =
    Some 10%nat /\
  fst (analyze audio_down_env (RequestBody watch_url None) empty_world) =
    Ret (StatusJson 500 false "Failed to analyze video"
                    "Failed to extract audio from video").
Proof. vm_compute. repeat split. Qed.

(* ===================================================================== *)
(** * Frame sampling (C3) *)
(* ===================================================================== *)

Lemma write_files_spec (paths : list string) (w : world) :
  for_each paths write_file w =
    (Ret tt, World (list_to_set paths ∪ fs w) (uuids w) (ticks w)
                   (trace w ++ map EvWrite paths)).
Proof.
  revert w. induction paths as [|p paths IH]; intros w; simpl.
  - unfold ret. destruct w; simpl. f_equal. f_equal.
    + now rewrite union_empty_l_L.
    + now rewrite app_nil_r.
  - unfold bind, write_file. rewrite IH; simpl. f_equal. f_equal.
    + set_solver.
    + now rewrite <- app_assoc.
Qed.

(** The frame paths collected by [extractFrames] are the files the
    screenshot command names. *)
Lemma frame_path_is_screenshot (E : env) (videoId : string) (i : nat) :
  Js.path_join (tempDir E) ((videoId +:+ "-frame-") +:+ Js.of_nat i +:+ ".png") =
  frame_path E videoId i.
Proof. unfold frame_path. now rewrite append_assoc. Qed.

(** No frame path is the path of the downloaded video. *)
Lemma frame_path_not_temp (E : env) (videoId : string) (i : nat) :
  frame_path E videoId i <> temp_video_path E videoId.
Proof.
  unfold frame_path, temp_video_path, Js.path_join. intros Heq.
  do 3 apply append_inj_prefix in Heq.
  cbv [String.append] in Heq. discriminate Heq.
Qed.

(** The collecting loop pushes the paths of the frames one to
    [frameCount], in that order. *)
Lemma collect_frames_map
    (E : env) (videoId : string) (frameCount : nat) (frames : list string) :
  collect_frames E videoId frameCount frames =
    frames ++ map (frame_path E videoId) (seq 1 frameCount).
Proof.
  unfold collect_frames. generalize (seq 1 frameCount) as indices.
  intros indices. revert frames.
  induction indices as [|i indices IH]; intros frames; simpl.
  - now rewrite app_nil_r.
  - now rewrite IH, <- app_assoc.
Qed.

(** [cleanupFile] that is not awaited: the caller goes on, with the
    file deleted or with the deletion in flight. *)
Lemma cleanupFile_detached_spec (E : env) (p : string) (w : world) :
  exists w' events,
    cleanupFile_detached E p w = (Ret tt, w') /\
    fs w' = (if unlink_settles_first E p then fs w ∖ {[p]} else fs w) /\
    trace w' = trace w ++ events /\
    (unlink_settles_first E p = false -> events = [EvDetached p]).
Proof.
  unfold cleanupFile_detached.
  destruct (unlink_settles_first E p).
  - cleanup_step p w. eexists w0, [_].
    split; [exact Hrun |]. split; [exact Hfs |]. split; [exact Htr |].
    discriminate.
  - eexists _, [EvDetached p]. repeat split.
Qed.

(** The screenshot command with a count that is not zero. *)
Lemma screenshots_run
    (E : env) (video : string) (k : nat) (folder prefix suffix : string)
    (w : world) :
  let file i := Js.path_join folder (prefix +:+ Js.of_nat i +:+ suffix) in
  let written :=
    match ffmpeg_screenshots E video with
    | ScreenshotsEnd => S k
    | ScreenshotsError written _ => Nat.min written (S k)
    end in
  screenshots E video (S k) folder prefix suffix w =
    (Ret (match ffmpeg_screenshots E video with
          | ScreenshotsEnd => None
          | ScreenshotsError _ err => Some err
          end),
     World (list_to_set (map file (seq 1 written)) ∪ fs w) (uuids w) (ticks w)
           (trace w ++ map EvWrite (map file (seq 1 written)))).
Proof.
  intros file written. subst written. unfold screenshots.
  change (S k =? 0)%nat with false. cbv iota.
  destruct (ffmpeg_screenshots E video) as [| n err];
    (erewrite bind_Ret by apply write_files_spec); reflexivity.
Qed.

(** Every run of [extractFrames]. It never settles when the download
    breaks or no frame is asked for, and the video stays. Otherwise it
    settles as the screenshot command ends, on the frames written so
    far, with the deletion of the video completed or in flight. *)
Lemma extractFrames_run
    (E : env) (videoUrl : string) (frameCount : nat) (w : world) :
  exists videoId w0,
    extractVideoId E videoUrl w = (Ret videoId, w0) /\
    fs w0 = fs w /\
    (ytdl_video E videoUrl = DownloadBreaks \/ frameCount = 0%nat ->
     exists w',
       extractFrames E videoUrl frameCount w = (Pending, w') /\
       fs w' = {[temp_video_path E videoId]} ∪ fs w) /\
    (ytdl_video E videoUrl = DownloadFinish -> frameCount <> 0%nat ->
     exists w' events,
       extractFrames E videoUrl frameCount w =
         (match ffmpeg_screenshots E (temp_video_path E videoId) with
          | ScreenshotsEnd => Ret (map (frame_path E videoId) (seq 1 frameCount))
          | ScreenshotsError _ err => Throw err
          end, w') /\
       fs w' =
         after_extraction E videoId
           (match ffmpeg_screenshots E (temp_video_path E videoId) with
            | ScreenshotsEnd => frameCount
            | ScreenshotsError written _ => Nat.min written frameCount
            end) (fs w) /\
       trace w' = trace w ++ events /\
       (unlink_settles_first E (temp_video_path E videoId) = false ->
        In (EvDetached (temp_video_path E videoId)) events)).
Proof.
  destruct (extractVideoId_returns E videoUrl w) as (videoId & n & Hid).
  exists videoId. eexists. split; [exact Hid |]. split; [reflexivity |].
  assert (Hfiles : forall k,
    map (fun i => Js.path_join (tempDir E)
                    ((videoId +:+ "-frame-") +:+ Js.of_nat i +:+ ".png"))
        (seq 1 k) = map (frame_path E videoId) (seq 1 k)).
  { intros k. apply map_ext. intros i. apply frame_path_is_screenshot. }
  split.
  - intros Hnever. unfold extractFrames.
    erewrite bind_Ret by exact Hid. erewrite bind_Ret by reflexivity.
    fold (temp_video_path E videoId).
    destruct (ytdl_video E videoUrl) eqn:Hdl.
    + destruct Hnever as [Hbreak | ->]; [discriminate |].
      eexists. split; [reflexivity | reflexivity].
    + eexists. split; [reflexivity | reflexivity].
  - intros Hfinish Hcount.
    destruct frameCount as [| k]; [contradiction |].
    unfold extractFrames.
    erewrite bind_Ret by exact Hid. erewrite bind_Ret by reflexivity.
    fold (temp_video_path E videoId). rewrite Hfinish.
    erewrite bind_Ret by (apply try_catch_Ret, screenshots_run).
    cbv beta zeta. rewrite Hfiles, collect_frames_map. simpl app.
    destruct (ffmpeg_screenshots E (temp_video_path E videoId))
      as [| written err] eqn:Hshots;
      match goal with
      | |- context [bind (cleanupFile_detached E ?p) _ ?w1] =>
          destruct (cleanupFile_detached_spec E p w1)
            as (w2 & ev & Hrun & Hfs & Htr & Hev)
      end;
      cbn [fs trace uuids ticks] in Hfs, Htr;
      (erewrite bind_Ret by exact Hrun);
      (exists w2; eexists; split; [reflexivity |];
       split; [exact Hfs |];
       split; [rewrite Htr, <- app_assoc, <- app_assoc; reflexivity |];
       intros Hlag; rewrite (Hev Hlag);
       apply in_or_app; right; apply in_or_app; right; now left).
Qed.

(** A successful [extractFrames]: the identifier it drew, the paths it
    returns, and the scratch directory it leaves. *)
Lemma extractFrames_returns
    (E : env) (videoUrl : string) (frameCount : nat) (w w' : world)
    (frames : list string) :
  extractFrames E videoUrl frameCount w = (Ret frames, w') ->
  exists videoId events,
    frames = map (frame_path E videoId) (seq 1 frameCount) /\
    fs w' = after_extraction E videoId frameCount (fs w) /\
    trace w' = trace w ++ events /\
    (unlink_settles_first E (temp_video_path E videoId) = false ->
     In (EvDetached (temp_video_path E videoId)) events).
Proof.
  intros Hrun.
  destruct (extractFrames_run E videoUrl frameCount w)
    as (videoId & w0 & _ & _ & Hnever & Hsettles).
  destruct (ytdl_video E videoUrl) eqn:Hdl.
  2:{ destruct Hnever as (w1 & Hp & _); [now left | congruence]. }
  destruct (Nat.eq_dec frameCount 0) as [Hzero | Hcount].
  { destruct Hnever as (w1 & Hp & _); [now right | congruence]. }
  destruct (Hsettles eq_refl Hcount) as (w1 & events & Hx & Hfs & Htr & Hev).
  rewrite Hrun in Hx.
  destruct (ffmpeg_screenshots E (temp_video_path E videoId)); [| discriminate].
  injection Hx as -> ->. now exists videoId, events.
Qed.

(** A failed [extractFrames]: the frames the command wrote before its
    error stay in the scratch directory. *)
Lemma extractFrames_throws
    (E : env) (videoUrl : string) (frameCount : nat) (w w' : world) (err : error) :
  extractFrames E videoUrl frameCount w = (Throw err, w') ->
  exists videoId written events,
    ffmpeg_screenshots E (temp_video_path E videoId) =
      ScreenshotsError written err /\
    fs w' = after_extraction E videoId (Nat.min written frameCount) (fs w) /\
    trace w' = trace w ++ events /\
    (unlink_settles_first E (temp_video_path E videoId) = false ->
     In (EvDetached (temp_video_path E videoId)) events).
Proof.
  intros Hrun.
  destruct (extractFrames_run E videoUrl frameCount w)
    as (videoId & w0 & _ & _ & Hnever & Hsettles).
  destruct (ytdl_video E videoUrl) eqn:Hdl.
  2:{ destruct Hnever as (w1 & Hp & _); [now left | congruence]. }
  destruct (Nat.eq_dec frameCount 0) as [Hzero | Hcount].
  { destruct Hnever as (w1 & Hp & _); [now right | congruence]. }
  destruct (Hsettles eq_refl Hcount) as (w1 & events & Hx & Hfs & Htr & Hev).
  rewrite Hrun in Hx.
  destruct (ffmpeg_screenshots E (temp_video_path E videoId))
    as [| written err'] eqn:Hshots; [discriminate |].
  injection Hx as -> ->. now exists videoId, written, events.
Qed.

(** The frames returned by [extractFrames] are counted and on disk. *)
Lemma extractFrames_files
    (E : env) (videoUrl : string) (frameCount : nat) (w w' : world)
    (frames : list string) :
  extractFrames E videoUrl frameCount w = (Ret frames, w') ->
  length frames = frameCount /\
  forall framePath, In framePath frames -> framePath ∈ fs w'.
Proof.
  intros Hrun.
  destruct (extractFrames_returns _ _ _ _ _ _ Hrun)
    as (videoId & events & -> & Hfs & _).
  split.
  - now rewrite length_map, length_seq.
  - intros framePath Hin. rewrite Hfs. unfold after_extraction.
    assert (Hne : framePath <> temp_video_path E videoId).
    { apply in_map_iff in Hin as (i & <- & _). apply frame_path_not_temp. }
    assert (Hfile : framePath ∈
              (list_to_set (map (frame_path E videoId) (seq 1 frameCount))
                 : gset string)).
    { now apply elem_of_list_to_set, list_elem_of_In. }
    destruct (unlink_settles_first E _); set_solver.
Qed.

(** C3. When [extractFrames] returns, the sequence it returns has
    exactly [frameCount] paths and every one of them is a file of the
    scratch directory at that moment. *)
Theorem extractFrames_postcondition
    (E : env) (videoUrl : string) (frameCount : nat) (w w' : world)
    (frames : list string) :
  extractFrames E videoUrl frameCount w = (Ret frames, w') ->
  length frames = frameCount /\
  forall framePath, In framePath frames -> framePath ∈ fs w'.
Proof. apply extractFrames_files. Qed.

Lemma extractFrames_postcondition_witness :
  length (map (frame_path healthy_env "id0") (seq 1 10)) = 10%nat /\
  forall framePath,
    In framePath (map (frame_path healthy_env "id0") (seq 1 10)) ->
    framePath ∈ fs (snd (extractFrames healthy_env watch_url 10 empty_world)).
Proof.
  apply (extractFrames_postcondition healthy_env watch_url 10 empty_world).
  vm_compute. reflexivity.
Defined.

(* ===================================================================== *)
(** * Frame analysis (C5) *)
(* ===================================================================== *)

(** One round of the loop of [analyzeFrames] on a frame that is
    analysed, and on one that is not. *)
Lemma frame_ok_inv (E : env) (files : gset string) (framePath : string) :
  frame_ok E files framePath = true ->
  framePath ∈ files /\
  exists content others, vision E framePath = VisionOk (content :: others).
Proof.
  unfold frame_ok. intros [Hin Hvis]%andb_prop.
  split; [now apply bool_decide_eq_true in Hin |].
  destruct (vision E framePath) as [[| content others] | err]; try discriminate.
  now exists content, others.
Qed.

Lemma frame_not_ok_inv (E : env) (files : gset string) (framePath : string) :
  frame_ok E files framePath = false ->
  framePath ∉ files \/
  (framePath ∈ files /\
   (vision E framePath = VisionOk [] \/
    exists err, vision E framePath = VisionFails err)).
Proof.
  unfold frame_ok. intros Hno.
  destruct (decide (framePath ∈ files)) as [Hin | Hout]; [| now left].
  right. split; [exact Hin |].
  rewrite (bool_decide_eq_true_2 _ Hin) in Hno. simpl in Hno.
  destruct (vision E framePath) as [[| content others] | err]; try discriminate.
  - now left.
  - right. now exists err.
Qed.

(** The loop on a sequence of frames is the round of its first frame
    followed by the loop on the others. *)
Lemma analyze_loop_cons
    (E : env) (framePath : string) (rest : list string)
    (analyses : list pushed_analysis) (w : world) :
  analyze_loop E (framePath :: rest) analyses w =
    match analyze_loop E [framePath] analyses w with
    | (Ret analyses', w') => analyze_loop E rest analyses' w'
    | (Throw e, w') => (Throw e, w')
    | (Pending, w') => (Pending, w')
    end.
Proof.
  simpl. unfold bind at 1. unfold bind at 5.
  destruct (try_catch _ _ w) as [[analyses' | e |] w']; reflexivity.
Qed.

(** One round: an element for the frame when it is analysed, and
    nothing but a log line otherwise. *)
Lemma analyze_loop_one
    (E : env) (framePath : string) (analyses : list pushed_analysis) (w : world) :
  exists pushed w' events,
    analyze_loop E [framePath] analyses w = (Ret (analyses ++ pushed), w') /\
    map pushed_frame pushed =
      (if frame_ok E (fs w) framePath then [framePath] else []) /\
    Forall (pushed_of_answer E) pushed /\
    fs w' = fs w /\
    trace w' = trace w ++ events /\
    forallb (fun e => negb (is_unlink e)) events = true.
Proof.
  destruct (frame_ok E (fs w) framePath) eqn:Hok.
  - apply frame_ok_inv in Hok as (Hin & content & others & Hvis).
    exists [PushedAnalysis framePath content (clock_source E (ticks w))].
    simpl. unfold bind at 1, try_catch, bind at 1.
    rewrite (readFile_present _ _ Hin).
    unfold bind at 1, completions_create, bind at 1, emit; simpl.
    rewrite Hvis. unfold bind, ret, now; simpl.
    eexists _, [EvRead framePath; EvVision framePath].
    split; [reflexivity |]. split; [reflexivity |].
    split; [repeat constructor; now exists others |].
    split; [reflexivity |]. split; [| reflexivity].
    simpl. now rewrite <- app_assoc.
  - exists []. rewrite app_nil_r.
    simpl. unfold bind at 1, try_catch, bind at 1.
    apply frame_not_ok_inv in Hok as [Hout | (Hin & [Hvis | (err & Hvis)])].
    + rewrite (readFile_absent _ _ Hout).
      eexists _, [_]. split; [reflexivity |]. simpl. repeat split; constructor.
    + rewrite (readFile_present _ _ Hin).
      unfold bind at 1, completions_create, bind at 1, emit; simpl.
      rewrite Hvis. unfold throw, bind, console_error, emit, ret; simpl.
      eexists _, [EvRead framePath; EvVision framePath; _].
      split; [reflexivity |]. simpl. rewrite <- !app_assoc.
      repeat split; constructor.
    + rewrite (readFile_present _ _ Hin).
      unfold bind at 1, completions_create, bind at 1, emit; simpl.
      rewrite Hvis. unfold throw, bind, console_error, emit, ret; simpl.
      eexists _, [EvRead framePath; EvVision framePath; _].
      split; [reflexivity |]. simpl. rewrite <- !app_assoc.
      repeat split; constructor.
Qed.

(** The loop of [analyzeFrames] always returns. It appends one element
    for each frame that is analysed, in the order of the frame paths,
    and none for the others; it deletes nothing. *)
Lemma analyze_loop_spec (E : env) (framePaths : list string) :
  forall (analyses : list pushed_analysis) (w : world),
  exists pushed w' events,
    analyze_loop E framePaths analyses w = (Ret (analyses ++ pushed), w') /\
    map pushed_frame pushed = List.filter (frame_ok E (fs w)) framePaths /\
    Forall (pushed_of_answer E) pushed /\
    fs w' = fs w /\
    trace w' = trace w ++ events /\
    forallb (fun e => negb (is_unlink e)) events = true.
Proof.
  induction framePaths as [|framePath rest IH]; intros analyses w.
  - exists [], w, []. simpl. rewrite !app_nil_r. repeat split. constructor.
  - rewrite analyze_loop_cons.
    destruct (analyze_loop_one E framePath analyses w)
      as (n1 & w1 & ev1 & Hrun1 & Hn1 & Hans1 & Hfs1 & Htr1 & Hev1).
    rewrite Hrun1.
    destruct (IH (analyses ++ n1) w1)
      as (n2 & w2 & ev2 & Hrun2 & Hn2 & Hans2 & Hfs2 & Htr2 & Hev2).
    rewrite Hrun2, <- app_assoc.
    exists (n1 ++ n2), w2, (ev1 ++ ev2).
    split; [reflexivity |]. split.
    { rewrite map_app, Hn1, Hn2, Hfs1. simpl.
      now destruct (frame_ok E (fs w) framePath). }
    split; [now apply Forall_app |].
    split; [congruence |].
    split; [rewrite Htr2, Htr1; now rewrite app_assoc |].
    rewrite forallb_app, Hev1, Hev2. reflexivity.
Qed.

Lemma forallb_on_map {A B} (f : A -> B) (p : B -> bool) (l : list A) :
  forallb p (map f l) = forallb (fun a => p (f a)) l.
Proof. induction l as [| a l IH]; simpl; [reflexivity | now rewrite IH]. Qed.

Lemma existsb_on_map {A B} (f : A -> B) (p : B -> bool) (l : list A) :
  existsb p (map f l) = existsb (fun a => p (f a)) l.
Proof. induction l as [| a l IH]; simpl; [reflexivity | now rewrite IH]. Qed.

(** The elements with a text are the notes of the same frames with the
    same answers; a null content among them leaves none. *)
Lemma with_text_Some (E : env) (pushed : list pushed_analysis) :
  Forall (pushed_of_answer E) pushed ->
  forallb (fun a => negb (null_answer E (pushed_frame a))) pushed = true ->
  exists notes,
    with_text pushed = Some notes /\
    map frame notes = map pushed_frame pushed /\
    Forall (note_of_answer E) notes.
Proof.
  induction pushed as [| a pushed IH]; intros Hans Htext.
  - exists []. repeat split. constructor.
  - apply Forall_cons in Hans as [[others Ha] Hans].
    simpl in Htext. apply andb_prop in Htext as [Hhead Htext].
    destruct (IH Hans Htext) as (notes & Hnotes & Hframes & Hall).
    unfold null_answer in Hhead. rewrite Ha in Hhead.
    destruct a as [framePath [content |] stamp]; simpl in *; [| discriminate].
    rewrite Hnotes. eexists. split; [reflexivity |]. simpl.
    split; [now rewrite Hframes |].
    constructor; [now exists others | exact Hall].
Qed.

Lemma with_text_None (E : env) (pushed : list pushed_analysis) :
  Forall (pushed_of_answer E) pushed ->
  existsb (fun a => null_answer E (pushed_frame a)) pushed = true ->
  with_text pushed = None.
Proof.
  induction pushed as [| a pushed IH]; intros Hans Hnull; [discriminate |].
  apply Forall_cons in Hans as [[others Ha] Hans].
  simpl in Hnull. unfold null_answer at 1 in Hnull. rewrite Ha in Hnull.
  destruct a as [framePath [content |] stamp]; simpl in *; [| reflexivity].
  now rewrite (IH Hans Hnull).
Qed.

(** [analyzeFrames] on any sequence of frames: it returns an object
    with analyses, possibly none, and deletes nothing. *)
Lemma analyzeFrames_spec (E : env) (framePaths : list string) (w : world) :
  exists va notes w' events,
    analyzeFrames E framePaths w = (Ret va, w') /\
    frameAnalyses va = Some notes /\
    fs w' = fs w /\
    trace w' = trace w ++ events /\
    forallb (fun e => negb (is_unlink e)) events = true.
Proof.
  destruct (analyze_loop_spec E framePaths [] w)
    as (pushed & w' & events & Hrun & _ & _ & Hfs & Htr & Hev).
  simpl in Hrun. unfold analyzeFrames.
  destruct (with_text pushed) as [notes |] eqn:Htext.
  - eexists _, notes, w', events.
    split.
    { erewrite try_catch_Ret; [reflexivity |].
      erewrite bind_Ret by exact Hrun. now rewrite Htext. }
    repeat split; assumption.
  - eexists _, [], _, (events ++ [_]).
    split.
    { erewrite try_catch_Throw; [reflexivity |].
      erewrite bind_Ret by exact Hrun. now rewrite Htext. }
    split; [reflexivity |]. split; [exact Hfs |].
    split; [simpl; now rewrite Htr, <- app_assoc |].
    rewrite forallb_app, Hev. reflexivity.
Qed.

(** [analyzeFrames] when every answer has a text, and when one has a
    null content. *)
Lemma analyzeFrames_cases (E : env) (framePaths : list string) (w : world) :
  (forallb (fun framePath => negb (null_answer E framePath))
           (List.filter (frame_ok E (fs w)) framePaths) = true ->
   exists notes,
     fst (analyzeFrames E framePaths w) =
       Ret (VisualAnalysis (Some notes)
                           (extractKeyVisualElements notes)
                           (extractTextFromAnalyses notes)
                           None
                           (identifyImportantVisuals notes)) /\
     map frame notes = List.filter (frame_ok E (fs w)) framePaths /\
     Forall (note_of_answer E) notes) /\
  (existsb (null_answer E) (List.filter (frame_ok E (fs w)) framePaths) = true ->
   fst (analyzeFrames E framePaths w) = Ret no_analyses).
Proof.
  destruct (analyze_loop_spec E framePaths [] w)
    as (pushed & w' & events & Hrun & Hframes & Hans & _).
  simpl in Hrun. rewrite <- Hframes. unfold analyzeFrames. split.
  - rewrite forallb_on_map. intros Htext.
    destruct (with_text_Some E pushed Hans Htext) as (notes & Hnotes & Hmap & Hall).
    exists notes. split; [| now split].
    erewrite try_catch_Ret; [reflexivity |].
    erewrite bind_Ret by exact Hrun. now rewrite Hnotes.
  - rewrite existsb_on_map. intros Hnull.
    erewrite try_catch_Throw; [reflexivity |].
    erewrite bind_Ret by exact Hrun.
    now rewrite (with_text_None E pushed Hans Hnull).
Qed.

(** C5. Ten sampled frames in the scratch directory. The vision service
    fails on the third and the sixth and answers the eight others, the
    ninth with a null content. [analyzeFrames] returns, but with no note
    at all: the notes of the seven frames whose answer has a text are
    dropped with the ninth. *)
Theorem analyzeFrames_null_content_drops_notes :
  let E := sample_env TranscodeEnd ScreenshotsEnd (SpeechOk sample_response)
                      vision_with_null_content in
  let frames := map (frame_path E "id0") (seq 1 10) in
  let w := World (list_to_set frames) 0 0 [] in
  List.filter (frame_ok E (fs w)) frames =
    map (frame_path E "id0") [1; 2; 4; 5; 7; 8; 9; 10]%nat /\
  List.filter (null_answer E) frames = [frame_path E "id0" 9] /\
  fst (analyzeFrames E frames w) = Ret no_analyses /\
  note_count <$> returned (analyzeFrames E frames w) = Some 0%nat.
Proof. vm_compute. repeat split. Qed.

(** X19. [analyzeFrames] never throws: it always returns an object
    with analyses. When the answer for every analysed frame has a
    text, these are exactly one note for each frame that was analysed,
    in the order of the frame sequence, each with the answer of the
    vision service for that frame, and no note for a frame that could
    not be read or analysed. When the answer for some analysed frame
    has a null content, the object has no analyses and empty
    summaries. *)
Theorem analyzeFrames_outcomes
    (E : env) (framePaths : list string) (w : world) :
  (exists va notes,
     fst (analyzeFrames E framePaths w) = Ret va /\
     frameAnalyses va = Some notes) /\
  (forallb (fun framePath => negb (null_answer E framePath))
           (List.filter (frame_ok E (fs w)) framePaths) = true ->
   exists va notes,
     fst (analyzeFrames E framePaths w) = Ret va /\
     frameAnalyses va = Some notes /\
     keyVisualElements va = extractKeyVisualElements notes /\
     textInImages va = extractTextFromAnalyses notes /\
     importantVisuals va = identifyImportantVisuals notes /\
     map frame notes = List.filter (frame_ok E (fs w)) framePaths /\
     Forall (note_of_answer E) notes) /\
  (existsb (null_answer E) (List.filter (frame_ok E (fs w)) framePaths) = true ->
   fst (analyzeFrames E framePaths w) = Ret no_analyses).
Proof.
  split; [| split].
  - destruct (analyzeFrames_spec E framePaths w)
      as (va & notes & w' & events & Hrun & Hnotes & _).
    exists va, notes. now rewrite Hrun.
  - intros Htext.
    destruct (proj1 (analyzeFrames_cases E framePaths w) Htext)
      as (notes & Hrun & Hframes & Hans).
    eexists _, notes. split; [exact Hrun |]. now repeat split.
  - apply analyzeFrames_cases.
Qed.

(** Ten sampled frames of which the third and the sixth (indices 2 and
    5) cannot be analysed, every answer having a text: eight notes, for
    the other frames in ascending order. *)
Example analyzeFrames_two_of_ten_fail :
  let E := sample_env TranscodeEnd ScreenshotsEnd (SpeechOk sample_response)
                      (vision_failing_on [3; 6]%nat) in
  let frames := map (frame_path E "id0") (seq 1 10) in
  let w := World (list_to_set frames) 0 0 [] in
  (map frame <$> (returned (analyzeFrames E frames w) ≫= frameAnalyses)) =
    Some (map (frame_path E "id0") [1; 2; 4; 5; 7; 8; 9; 10]%nat).
Proof. vm_compute. reflexivity. Qed.

(* ===================================================================== *)
(** * Lifetime of the frame files (C7) *)
(* ===================================================================== *)

(** The cleanup loop of [analyzeVisuals] always returns; it removes the
    frames from the scratch directory and calls no service. *)
Lemma cleanup_all_spec (paths : list string) :
  forall w : world,
  exists w' events,
    for_each paths cleanupFile w = (Ret tt, w') /\
    fs w' = fs w ∖ list_to_set paths /\
    trace w' = trace w ++ events /\
    forallb (fun e => negb (is_vision e)) events = true.
Proof.
  induction paths as [|p paths IH]; intros w; simpl.
  - exists w, []. rewrite app_nil_r. repeat split.
    now rewrite difference_empty_L.
  - unfold bind. cleanup_step p w. rewrite Hrun.
    destruct (IH w0) as (w1 & events & Hloop & Hfs1 & Htr1 & Hev).
    rewrite Hloop. eexists w1, (_ :: events).
    split; [reflexivity |]. split; [rewrite Hfs1, Hfs; set_solver |].
    split; [rewrite Htr1, Htr; now rewrite <- app_assoc |].
    simpl. rewrite Hev. now destruct (decide (p ∈ fs w)).
Qed.

(** C7, as the code has it. Once [extractFrames] has returned the ten
    frames, [analyzeFrames] runs on all of them without deleting any:
    when the analysis of the last frame is over every frame file is
    still in the scratch directory. Only then does [analyzeVisuals]
    delete the frames, calling the vision service no more, and when it
    returns no frame file is left. *)
Theorem analyzeVisuals_deletes_after_analysis
    (E : env) (videoUrl : string) (w w1 : world) (frames : list string) :
  extractFrames E videoUrl 10 w = (Ret frames, w1) ->
  exists va w2 w3 analysis_events cleanup_events,
    analyzeFrames E frames w1 = (Ret va, w2) /\
    trace w2 = trace w1 ++ analysis_events /\
    forallb (fun e => negb (is_unlink e)) analysis_events = true /\
    (forall framePath, In framePath frames -> framePath ∈ fs w2) /\
    analyzeVisuals E videoUrl w = (Ret va, w3) /\
    trace w3 = trace w2 ++ cleanup_events /\
    forallb (fun e => negb (is_vision e)) cleanup_events = true /\
    (forall framePath, In framePath frames -> framePath ∉ fs w3).
Proof.
  intros Hframes.
  destruct (analyzeFrames_spec E frames w1)
    as (va & notes & w2 & ev2 & Hrun2 & _ & Hfs2 & Htr2 & Hev2).
  destruct (cleanup_all_spec frames w2) as (w3 & ev3 & Hrun3 & Hfs3 & Htr3 & Hev3).
  eexists _, w2, w3, ev2, ev3.
  split; [exact Hrun2 |]. split; [exact Htr2 |]. split; [exact Hev2 |].
  split.
  { intros framePath Hin. rewrite Hfs2.
    now apply (extractFrames_files _ _ _ _ _ _ Hframes). }
  split.
  { unfold analyzeVisuals, try_catch, bind at 1. rewrite Hframes.
    unfold bind at 1. rewrite Hrun2. unfold bind. now rewrite Hrun3. }
  split; [exact Htr3 |]. split; [exact Hev3 |].
  intros framePath Hin. rewrite Hfs3.
  apply not_elem_of_difference. right.
  now apply elem_of_list_to_set, list_elem_of_In.
Qed.

Lemma analyzeVisuals_deletes_after_analysis_witness :
  exists va w2 w3 analysis_events cleanup_events,
    analyzeFrames healthy_env (map (frame_path healthy_env "id0") (seq 1 10))
                  (snd (extractFrames healthy_env watch_url 10 empty_world)) =
      (Ret va, w2) /\
    trace w2 =
      trace (snd (extractFrames healthy_env watch_url 10 empty_world)) ++
      analysis_events /\
    forallb (fun e => negb (is_unlink e)) analysis_events = true /\
    (forall framePath,
       In framePath (map (frame_path healthy_env "id0") (seq 1 10)) ->
       framePath ∈ fs w2) /\
    analyzeVisuals healthy_env watch_url empty_world = (Ret va, w3) /\
    trace w3 = trace w2 ++ cleanup_events /\
    forallb (fun e => negb (is_vision e)) cleanup_events = true /\
    (forall framePath,
       In framePath (map (frame_path healthy_env "id0") (seq 1 10)) ->
       framePath ∉ fs w3).
Proof.
  apply (analyzeVisuals_deletes_after_analysis healthy_env watch_url empty_world).
  vm_compute. reflexivity.
Defined.

(** Against C7 as stated: in a run where every tool succeeds the vision
    service is called on all ten frames before the first frame is
    deleted, and the ten frame files are all on disk when the analysis
    of the last one is over. *)
Lemma frames_not_deleted_one_by_one :
  let frames := map (frame_path healthy_env "id0") (seq 1 10) in
  List.filter (fun e => is_vision e || is_unlink e)
              (trace (snd (analyzeVisuals healthy_env watch_url empty_world))) =
    EvUnlink (temp_video_path healthy_env "id0") ::
    map EvVision frames ++ map EvUnlink frames /\
  fs (snd ((let* sampled := extractFrames healthy_env watch_url 10 in
            analyzeFrames healthy_env sampled) empty_world)) =
    list_to_set frames.
Proof. vm_compute. split; reflexivity. Qed.

(* ===================================================================== *)
(** * Files that outlive a run (C2) *)
(* ===================================================================== *)

(** C2. Two runs of the handler on an empty scratch directory that
    leave files behind. When the audio transcoder fails after creating
    its output file, the request fails and the partial audio file stays
    in the scratch directory. When the screenshot command fails after
    writing three frames, the request succeeds and the three frame
    files stay. *)
Theorem analyze_leaves_files_behind :
  fst (analyze audio_partial_env (RequestBody watch_url None) empty_world) =
    Ret (StatusJson 500 false "Failed to analyze video"
                    "Failed to extract audio from video") /\
  fs (snd (analyze audio_partial_env (RequestBody watch_url None) empty_world)) =
    {[ "/app/temp/id0-id1.wav" ]} /\
  fst (analyze frames_partial_env (RequestBody watch_url None) empty_world) =
    Ret (Json true "keypoints"
              (Metadata watch_url "keypoints" (7 # 2) "t0")) /\
  fs (snd (analyze frames_partial_env (RequestBody watch_url None) empty_world)) =
    list_to_set (map (frame_path frames_partial_env "id2") [1; 2; 3]%nat).
Proof. vm_compute. repeat split. Qed.

(* ===================================================================== *)
(** * Further properties of the service and of the handler *)
(* ===================================================================== *)

(** ** Outcomes of the visual branch *)

(** [extractFrames], asked for at least one frame, stays pending
    exactly when the download breaks. *)
Lemma extractFrames_outcome
    (E : env) (videoUrl : string) (frameCount : nat) (w : world) :
  frameCount <> 0%nat ->
  match fst (extractFrames E videoUrl frameCount w) with
  | Pending => ytdl_video E videoUrl = DownloadBreaks
  | _ => ytdl_video E videoUrl = DownloadFinish
  end.
Proof.
  intros Hcount.
  destruct (extractFrames_run E videoUrl frameCount w)
    as (videoId & w0 & _ & _ & Hnever & Hsettles).
  destruct (ytdl_video E videoUrl) eqn:Hdl.
  - destruct (Hsettles eq_refl Hcount) as (w1 & events & -> & _).
    now destruct (ffmpeg_screenshots E _).
  - destruct Hnever as (w1 & -> & _); [now left | reflexivity].
Qed.

(** The two ways [analyzeVisuals] ends: it returns, or it stays
    pending because the download broke. *)
Lemma analyzeVisuals_cases (E : env) (videoUrl : string) (w : world) :
  (exists va w',
     analyzeVisuals E videoUrl w = (Ret va, w') /\
     ytdl_video E videoUrl = DownloadFinish) \/
  (exists w',
     analyzeVisuals E videoUrl w = (Pending, w') /\
     ytdl_video E videoUrl = DownloadBreaks).
Proof.
  pose proof (extractFrames_outcome E videoUrl 10 w ltac:(discriminate)) as Hout.
  unfold analyzeVisuals.
  destruct (extractFrames E videoUrl 10 w) as [[frames | err |] w1] eqn:Hx;
    simpl in Hout.
  - left.
    destruct (analyzeFrames_spec E frames w1)
      as (va & notes & w2 & ev2 & Hrun2 & _).
    destruct (cleanup_all_spec frames w2) as (w3 & ev3 & Hrun3 & _).
    eexists _, w3. split; [| exact Hout].
    erewrite try_catch_Ret; [reflexivity |].
    erewrite bind_Ret by exact Hx. erewrite bind_Ret by exact Hrun2.
    erewrite bind_Ret by exact Hrun3. reflexivity.
  - left. eexists _, _. split; [| exact Hout].
    erewrite try_catch_Throw by (erewrite bind_Throw by exact Hx; reflexivity).
    reflexivity.
  - right. exists w1. split; [| exact Hout].
    erewrite try_catch_Pending by (erewrite bind_Pending by exact Hx; reflexivity).
    reflexivity.
Qed.

(** X1. [analyzeVisuals] never throws, whatever the extraction of the
    frames does. When the extraction returns frames the result carries
    their analyses; when it fails the result is the object with empty
    [keyVisualElements], [textInImages], [sceneChanges] and
    [importantVisuals]; when it never settles neither does
    [analyzeVisuals]. *)
Theorem analyzeVisuals_never_throws (E : env) (videoUrl : string) (w : world) :
  match fst (extractFrames E videoUrl 10 w) with
  | Ret frames =>
      exists va notes,
        fst (analyzeVisuals E videoUrl w) = Ret va /\
        frameAnalyses va = Some notes
  | Throw err => fst (analyzeVisuals E videoUrl w) = Ret fallback_visuals
  | Pending => fst (analyzeVisuals E videoUrl w) = Pending
  end.
Proof.
  unfold analyzeVisuals.
  destruct (extractFrames E videoUrl 10 w) as [[frames | err |] w1] eqn:Hx;
    simpl.
  - destruct (analyzeFrames_spec E frames w1)
      as (va & notes & w2 & ev2 & Hrun2 & Hnotes & _).
    destruct (cleanup_all_spec frames w2) as (w3 & ev3 & Hrun3 & _).
    exists va, notes.
    erewrite try_catch_Ret.
    2:{ erewrite bind_Ret by exact Hx. erewrite bind_Ret by exact Hrun2.
        erewrite bind_Ret by exact Hrun3. reflexivity. }
    split; [reflexivity | exact Hnotes].
  - erewrite try_catch_Throw by (erewrite bind_Throw by exact Hx; reflexivity).
    reflexivity.
  - erewrite try_catch_Pending by (erewrite bind_Pending by exact Hx; reflexivity).
    reflexivity.
Qed.

(** ** Outcomes of the handler *)

(** The handler after the log line of its first statement. *)
Lemma analyze_started (E : env) (body : request_body) (w : world) :
  analyze E body w =
    try_catch
      (let* audioPath := extractAudio E (url body) in
       let* transcript := transcribeAudio E audioPath in
       let* visualAnalysis := analyzeVisuals E (url body) in
       reply E body transcript visualAnalysis)
      reply_failure
      (started (url body) w).
Proof. reflexivity. Qed.

(** The last statements of the handler settle: with the success
    response when the generator returns, with its error when it
    throws. *)
Lemma reply_cases
    (E : env) (body : request_body) (t : transcript) (va : visual_analysis)
    (w : world) :
  (exists data,
     reply E body t va w =
       (Ret (Json true data
                  (Metadata (url body) (default "keypoints" (format body))
                            (duration t) (clock_source E (ticks w)))),
        World (fs w) (uuids w) (S (ticks w)) (trace w))) \/
  (exists err, reply E body t va w = (Throw err, w)).
Proof.
  unfold reply.
  repeat (destruct (String.eqb _ _);
          [match goal with
           | |- context [generator ?g] => destruct g as [data | err]
           end; [left; now exists data | right; now exists err] |]).
  match goal with
  | |- context [generator ?g] => destruct g as [data | err]
  end; [left; now exists data | right; now exists err].
Qed.

(** The handler once the audio branch has returned a transcript and the
    visual branch an analysis. *)
Lemma analyze_after_branches
    (E : env) (body : request_body) (w w1 w2 : world)
    (t : transcript) (va : visual_analysis) :
  audio_branch E (url body) (started (url body) w) = (Ret t, w1) ->
  analyzeVisuals E (url body) w1 = (Ret va, w2) ->
  analyze E body w = try_catch (reply E body t va) reply_failure w2.
Proof.
  intros Haudio Hva. rewrite analyze_started.
  unfold audio_branch in Haudio.
  destruct (extractAudio E (url body) (started (url body) w))
    as [[audioPath | e |] w0] eqn:Hex;
    [| erewrite bind_Throw in Haudio by exact Hex; discriminate
     | erewrite bind_Pending in Haudio by exact Hex; discriminate].
  erewrite bind_Ret in Haudio by exact Hex.
  unfold try_catch.
  erewrite bind_Ret by exact Hex. erewrite bind_Ret by exact Haudio.
  erewrite bind_Ret by exact Hva. reflexivity.
Qed.

(** The handler once the audio branch has returned a transcript and the
    visual branch stays pending. *)
Lemma analyze_pending
    (E : env) (body : request_body) (w w1 w2 : world) (t : transcript) :
  audio_branch E (url body) (started (url body) w) = (Ret t, w1) ->
  analyzeVisuals E (url body) w1 = (Pending, w2) ->
  analyze E body w = (Pending, w2).
Proof.
  intros Haudio Hva. rewrite analyze_started.
  unfold audio_branch in Haudio.
  destruct (extractAudio E (url body) (started (url body) w))
    as [[audioPath | e |] w0] eqn:Hex;
    [| erewrite bind_Throw in Haudio by exact Hex; discriminate
     | erewrite bind_Pending in Haudio by exact Hex; discriminate].
  erewrite bind_Ret in Haudio by exact Hex.
  unfold try_catch.
  erewrite bind_Ret by exact Hex. erewrite bind_Ret by exact Haudio.
  erewrite bind_Pending by exact Hva. reflexivity.
Qed.

(** The handler once the audio branch has thrown. *)
Lemma analyze_after_audio_failure
    (E : env) (body : request_body) (w w1 : world) (e : error) :
  audio_branch E (url body) (started (url body) w) = (Throw e, w1) ->
  analyze E body w = reply_failure e w1.
Proof.
  intros Haudio. rewrite analyze_started.
  unfold audio_branch in Haudio.
  destruct (extractAudio E (url body) (started (url body) w))
    as [[audioPath | e0 |] w0] eqn:Hex.
  - erewrite bind_Ret in Haudio by exact Hex.
    erewrite try_catch_Throw; [reflexivity |].
    erewrite bind_Ret by exact Hex. erewrite bind_Throw by exact Haudio.
    reflexivity.
  - erewrite bind_Throw in Haudio by exact Hex. injection Haudio as -> ->.
    erewrite try_catch_Throw; [reflexivity |].
    erewrite bind_Throw by exact Hex. reflexivity.
  - erewrite bind_Pending in Haudio by exact Hex. discriminate.
Qed.

(** The audio branch settles. *)
Lemma audio_branch_cases (E : env) (videoUrl : string) (w : world) :
  (exists audioPath response w1 w2,
     extractAudio E videoUrl w = (Ret audioPath, w1) /\
     isYouTubeUrl videoUrl = true /\
     ytdl_audio E videoUrl = TranscodeEnd /\
     speech_to_text E audioPath = SpeechOk response /\
     audio_branch E videoUrl w = (Ret (transcript_of response), w2) /\
     fs w2 = fs w ∖ {[audioPath]}) \/
  (exists e w1, audio_branch E videoUrl w = (Throw e, w1)).
Proof.
  unfold audio_branch.
  destruct (extractAudio_cases E videoUrl w)
    as [(audioPath & w1 & Hex & Hyt & Hff & Hfs1) | (w1 & Hex & _)].
  2:{ right. eexists _, w1. erewrite bind_Throw by exact Hex. reflexivity. }
  destruct (transcribeAudio_cases E audioPath w1)
    as [(response & w2 & Htr & _ & Hsp & Hfs2) | (w2 & Htr & _)].
  2:{ right. eexists _, w2. erewrite bind_Ret by exact Hex. exact Htr. }
  left. exists audioPath, response, w1, w2.
  split; [exact Hex |]. split; [exact Hyt |]. split; [exact Hff |].
  split; [exact Hsp |]. split.
  - erewrite bind_Ret by exact Hex. exact Htr.
  - rewrite Hfs2, Hfs1. set_solver.
Qed.

(** X2. The handler never throws: either it sends a response, or the
    audio branch succeeded and the download of the video broke, in
    which case the request is never answered. *)
Theorem analyze_responds_unless_download_breaks
    (E : env) (body : request_body) (w : world) :
  (exists r, fst (analyze E body w) = Ret r) \/
  (fst (analyze E body w) = Pending /\
   ytdl_video E (url body) = DownloadBreaks /\
   exists t, fst (audio_branch E (url body) (started (url body) w)) = Ret t).
Proof.
  destruct (audio_branch_cases E (url body) (started (url body) w))
    as [(audioPath & response & w1 & w2 & _ & _ & _ & _ & Haudio & _)
       | (e & w1 & Haudio)].
  2:{ left. eexists.
      now rewrite (analyze_after_audio_failure _ _ _ _ _ Haudio). }
  destruct (analyzeVisuals_cases E (url body) w2)
    as [(va & w3 & Hva & _) | (w3 & Hva & Hbreak)].
  - left. rewrite (analyze_after_branches _ _ _ _ _ _ _ Haudio Hva).
    unfold try_catch.
    destruct (reply_cases E body (transcript_of response) va w3)
      as [(data & ->) | (err & ->)]; eexists; reflexivity.
  - right. rewrite (analyze_pending _ _ _ _ _ _ Haudio Hva).
    split; [reflexivity |]. split; [exact Hbreak |].
    eexists. now rewrite Haudio.
Qed.

(** X3. A success response of the handler is sent only for a YouTube
    URL whose audio was transcoded to the end, transcribed, and whose
    video was downloaded; its [success] field is [true], its metadata
    repeat the URL of the request, and the duration they report is the
    one computed from the segments of the transcription. *)
Theorem analyze_success_conditions
    (E : env) (body : request_body) (w w' : world)
    (ok : bool) (data : string) (md : metadata) :
  analyze E body w = (Ret (Json ok data md), w') ->
  ok = true /\
  isYouTubeUrl (url body) = true /\
  ytdl_audio E (url body) = TranscodeEnd /\
  ytdl_video E (url body) = DownloadFinish /\
  md_url md = url body /\
  exists audioPath response,
    speech_to_text E audioPath = SpeechOk response /\
    md_duration md = calculateDuration (resp_segments response).
Proof.
  intros Hrun.
  destruct (audio_branch_cases E (url body) (started (url body) w))
    as [(audioPath & response & w1 & w2 & _ & Hyt & Hff & Hsp & Haudio & _)
       | (e & w1 & Haudio)].
  2:{ rewrite (analyze_after_audio_failure _ _ _ _ _ Haudio) in Hrun.
      discriminate. }
  destruct (analyzeVisuals_cases E (url body) w2)
    as [(va & w3 & Hva & Hdl) | (w3 & Hva & _)].
  2:{ rewrite (analyze_pending _ _ _ _ _ _ Haudio Hva) in Hrun. discriminate. }
  rewrite (analyze_after_branches _ _ _ _ _ _ _ Haudio Hva) in Hrun.
  unfold try_catch in Hrun.
  destruct (reply_cases E body (transcript_of response) va w3)
    as [(data' & Hreply) | (err & Hreply)]; rewrite Hreply in Hrun.
  2:{ discriminate. }
  injection Hrun as <- <- <- <-. simpl.
  repeat (split; [assumption || reflexivity |]).
  now exists audioPath, response.
Qed.

Lemma analyze_success_conditions_witness :
  isYouTubeUrl watch_url = true /\
  ytdl_audio healthy_env watch_url = TranscodeEnd.
Proof.
  destruct (analyze_success_conditions healthy_env
              (RequestBody watch_url None) empty_world
              (snd (analyze healthy_env (RequestBody watch_url None) empty_world))
              true "keypoints"
              (Metadata watch_url "keypoints" (7 # 2) "t10"))
    as (_ & Hyt & Hff & _).
  - vm_compute. reflexivity.
  - split; assumption.
Defined.



(** ** Files of the two extractions *)

(** X5. When [extractAudio] returns, the path it returns is the file
    [<tempDir>/<id>-<uuid>.wav] named after the next two identifiers of
    the random source, and that file is in the scratch directory, which
    is otherwise unchanged. *)
Theorem extractAudio_returns_new_file
    (E : env) (videoUrl : string) (w w' : world) (audioPath : string) :
  extractAudio E videoUrl w = (Ret audioPath, w') ->
  audioPath =
    Js.path_join (tempDir E)
      (uuid_source E (uuids w) +:+ "-" +:+ uuid_source E (S (uuids w)) +:+ ".wav") /\
  fs w' = {[audioPath]} ∪ fs w /\
  uuids w' = S (S (uuids w)).
Proof.
  unfold extractAudio, try_catch.
  destruct (isYouTubeUrl videoUrl) eqn:Hyt.
  - erewrite bind_Ret
      by (rewrite (extractVideoId_youtube E _ w Hyt); reflexivity).
    erewrite bind_Ret by reflexivity.
    cbv zeta. unfold extractYouTubeAudio.
    destruct (ytdl_audio E videoUrl) as [| partial err].
    + unfold bind, write_file, console_log, emit, ret; simpl.
      intros [= <- <-]. simpl. repeat split.
    + destruct partial; unfold bind, write_file, console_error, emit, ret, throw;
        simpl; discriminate.
  - destruct (extractVideoId_returns E videoUrl w) as (id & n & Hid).
    erewrite bind_Ret by exact Hid.
    erewrite bind_Ret by reflexivity.
    cbv zeta.
    destruct (isInstagramUrl videoUrl); discriminate.
Qed.

Lemma extractAudio_returns_new_file_witness :
  "/app/temp/id0-id1.wav" =
    Js.path_join (tempDir healthy_env)
      (uuid_source healthy_env 0 +:+ "-" +:+ uuid_source healthy_env 1 +:+ ".wav") /\
  fs (snd (extractAudio healthy_env watch_url empty_world)) =
    {[ "/app/temp/id0-id1.wav" ]} ∪ fs empty_world /\
  uuids (snd (extractAudio healthy_env watch_url empty_world)) = 2%nat.
Proof.
  apply (extractAudio_returns_new_file healthy_env watch_url empty_world).
  vm_compute. reflexivity.
Defined.

(** X6. Once the video is downloaded and at least one frame is asked
    for, [extractFrames] settles, whether the screenshot command ends
    or fails. By then it has started the deletion of the downloaded
    video without waiting for it: the video is out of the scratch
    directory at that moment when the deletion has completed in the
    meantime, and is still there, its deletion in flight, when it has
    not. When no frame is asked for, [extractFrames] never settles and
    the video stays. *)
Theorem extractFrames_detaches_video_deletion
    (E : env) (videoUrl : string) (frameCount : nat) (w : world) :
  ytdl_video E videoUrl = DownloadFinish ->
  exists videoId,
    fst (extractVideoId E videoUrl w) = Ret videoId /\
    let video := temp_video_path E videoId in
    let w' := snd (extractFrames E videoUrl frameCount w) in
    if (frameCount =? 0)%nat then
      fst (extractFrames E videoUrl frameCount w) = Pending /\ video ∈ fs w'
    else
      fst (extractFrames E videoUrl frameCount w) <> Pending /\
      if unlink_settles_first E video then video ∉ fs w'
      else video ∈ fs w' /\ In (EvDetached video) (trace w').
Proof.
  intros Hdl.
  destruct (extractFrames_run E videoUrl frameCount w)
    as (videoId & w0 & Hid & _ & Hnever & Hsettles).
  exists videoId. rewrite Hid. split; [reflexivity |]. cbv zeta.
  destruct (Nat.eqb_spec frameCount 0) as [Hzero | Hcount].
  - destruct Hnever as (w1 & -> & Hfs); [now right |]. simpl.
    split; [reflexivity |]. rewrite Hfs. set_solver.
  - destruct (Hsettles Hdl Hcount) as (w1 & events & -> & Hfs & Htr & Hev).
    simpl. split; [now destruct (ffmpeg_screenshots E _) |].
    rewrite Hfs. unfold after_extraction.
    destruct (unlink_settles_first E (temp_video_path E videoId)).
    + set_solver.
    + split; [set_solver |].
      rewrite Htr. apply in_or_app. right. now apply Hev.
Qed.

Lemma extractFrames_detaches_video_deletion_witness :
  exists videoId,
    fst (extractVideoId (slow_unlink healthy_env) watch_url empty_world) =
      Ret videoId /\
    fst (extractFrames (slow_unlink healthy_env) watch_url 10 empty_world) <>
      Pending /\
    temp_video_path (slow_unlink healthy_env) videoId ∈
      fs (snd (extractFrames (slow_unlink healthy_env) watch_url 10 empty_world)) /\
    In (EvDetached (temp_video_path (slow_unlink healthy_env) videoId))
       (trace (snd (extractFrames (slow_unlink healthy_env) watch_url 10
                                  empty_world))).
Proof.
  apply (extractFrames_detaches_video_deletion
           (slow_unlink healthy_env) watch_url 10 empty_world).
  reflexivity.
Defined.

(** The files [analyzeVisuals] leaves when a failing screenshot command
    has written no frame: none but the downloaded video, and that one
    only with its deletion in flight. *)
Lemma analyzeVisuals_files
    (E : env) (videoUrl : string) (w w' : world) (va : visual_analysis) :
  (forall video written err,
     ffmpeg_screenshots E video = ScreenshotsError written err -> written = 0%nat) ->
  analyzeVisuals E videoUrl w = (Ret va, w') ->
  forall path,
    path ∈ fs w' ->
    path ∈ fs w \/
    (unlink_settles_first E path = false /\ In (EvDetached path) (trace w')).
Proof.
  intros Hclean Hrun path.
  unfold analyzeVisuals in Hrun.
  destruct (extractFrames E videoUrl 10 w) as [[frames | err |] w1] eqn:Hx.
  - destruct (extractFrames_returns _ _ _ _ _ _ Hx)
      as (videoId & events & -> & Hfs1 & Htr1 & Hev1).
    destruct (analyzeFrames_spec E (map (frame_path E videoId) (seq 1 10)) w1)
      as (va2 & notes & w2 & ev2 & Hrun2 & _ & Hfs2 & Htr2 & _).
    destruct (cleanup_all_spec (map (frame_path E videoId) (seq 1 10)) w2)
      as (w3 & ev3 & Hrun3 & Hfs3 & Htr3 & _).
    erewrite try_catch_Ret in Hrun.
    2:{ erewrite bind_Ret by exact Hx. erewrite bind_Ret by exact Hrun2.
        erewrite bind_Ret by exact Hrun3. reflexivity. }
    injection Hrun as _ <-.
    rewrite Hfs3, Hfs2, Hfs1, Htr3, Htr2, Htr1. unfold after_extraction.
    destruct (unlink_settles_first E (temp_video_path E videoId)) eqn:Hlag.
    + intros Hin. left. set_solver.
    + intros Hin.
      destruct (decide (path = temp_video_path E videoId)) as [-> | Hother].
      * right. split; [exact Hlag |].
        apply in_or_app. left. apply in_or_app. left.
        apply in_or_app. right. now apply Hev1.
      * left. set_solver.
  - destruct (extractFrames_throws _ _ _ _ _ _ Hx)
      as (videoId & written & events & Hshots & Hfs1 & Htr1 & Hev1).
    rewrite (Hclean _ _ _ Hshots) in Hfs1.
    erewrite try_catch_Throw in Hrun
      by (erewrite bind_Throw by exact Hx; reflexivity).
    injection Hrun as _ <-. simpl.
    rewrite Hfs1, Htr1. unfold after_extraction. simpl.
    destruct (unlink_settles_first E (temp_video_path E videoId)) eqn:Hlag.
    + intros Hin. left. set_solver.
    + intros Hin.
      destruct (decide (path = temp_video_path E videoId)) as [-> | Hother].
      * right. split; [exact Hlag |].
        apply in_or_app. left. apply in_or_app. right. now apply Hev1.
      * left. set_solver.
  - erewrite try_catch_Pending in Hrun
      by (erewrite bind_Pending by exact Hx; reflexivity).
    discriminate.
Qed.

(** X7. A run of the handler whose failing tools leave no partial output
    behind (the audio transcoder never fails after creating its file,
    a failing screenshot command has written no frame) leaves, once it
    has settled and whatever its outcome, no new file in the scratch
    directory but the downloaded video, and that one only when its
    deletion, which is not awaited, was still in flight when
    [extractFrames] settled. Where such deletions complete before
    their caller settles the run leaves no new file at all. *)
Theorem analyze_tidy (E : env) (body : request_body) (w : world) :
  (forall err, ytdl_audio E (url body) <> TranscodeError true err) ->
  (forall video written err,
     ffmpeg_screenshots E video = ScreenshotsError written err -> written = 0%nat) ->
  fst (analyze E body w) <> Pending ->
  (forall path,
     path ∈ fs (snd (analyze E body w)) ->
     path ∈ fs w \/
     (unlink_settles_first E path = false /\
      In (EvDetached path) (trace (snd (analyze E body w))))) /\
  ((forall path, unlink_settles_first E path = true) ->
   fs (snd (analyze E body w)) ⊆ fs w).
Proof.
  intros Haudio Hshots Hsettled.
  assert (Hfiles : forall path,
            path ∈ fs (snd (analyze E body w)) ->
            path ∈ fs w \/
            (unlink_settles_first E path = false /\
             In (EvDetached path) (trace (snd (analyze E body w))))).
  { assert (Hstart : fs (started (url body) w) = fs w) by reflexivity.
    destruct (extractAudio_cases E (url body) (started (url body) w))
      as [(audioPath & w1 & Hex & _ & _ & Hfs1)
         | (w1 & Hex & _ & [Hfs1 | (audioPath & err & Hpartial & _)])].
    - destruct (transcribeAudio_cases E audioPath w1)
        as [(response & w2 & Htr & _ & _ & Hfs2) | (w2 & Htr & _ & Hfs2)].
      + assert (Hbranch : audio_branch E (url body) (started (url body) w) =
                            (Ret (transcript_of response), w2)).
        { unfold audio_branch. erewrite bind_Ret by exact Hex. exact Htr. }
        destruct (analyzeVisuals E (url body) w2) as [[va | err |] w3] eqn:Hva.
        * pose proof (analyzeVisuals_files _ _ _ _ _ Hshots Hva) as Hleft.
          rewrite (analyze_after_branches _ _ _ _ _ _ _ Hbranch Hva).
          assert (Hbefore : forall path, path ∈ fs w2 -> path ∈ fs w).
          { intros path. rewrite Hfs2, Hfs1, Hstart. set_solver. }
          destruct (reply_cases E body (transcript_of response) va w3)
            as [(data & Hreply) | (err & Hreply)].
          -- erewrite try_catch_Ret by exact Hreply. simpl.
             intros path Hin. destruct (Hleft path Hin) as [Hold | Hnew];
               [left; now apply Hbefore | right; exact Hnew].
          -- erewrite try_catch_Throw by exact Hreply. simpl.
             intros path Hin.
             destruct (Hleft path Hin) as [Hold | [Hlag Hnew]];
               [left; now apply Hbefore |].
             right. split; [exact Hlag |]. apply in_or_app. now left.
        * destruct (analyzeVisuals_cases E (url body) w2)
            as [(va & w4 & Hva' & _) | (w4 & Hva' & _)]; congruence.
        * rewrite (analyze_pending _ _ _ _ _ _ Hbranch Hva) in Hsettled.
          now destruct Hsettled.
      + assert (Hbranch : audio_branch E (url body) (started (url body) w) =
                            (Throw transcription_error, w2)).
        { unfold audio_branch. erewrite bind_Ret by exact Hex. exact Htr. }
        rewrite (analyze_after_audio_failure _ _ _ _ _ Hbranch). simpl.
        intros path Hin. left. revert Hin. rewrite Hfs2, Hfs1, Hstart.
        set_solver.
    - assert (Hbranch : audio_branch E (url body) (started (url body) w) =
                          (Throw extraction_error, w1)).
      { unfold audio_branch. erewrite bind_Throw by exact Hex. reflexivity. }
      rewrite (analyze_after_audio_failure _ _ _ _ _ Hbranch). simpl.
      intros path Hin. left. revert Hin. now rewrite Hfs1, Hstart.
    - now destruct (Haudio err). }
  split; [exact Hfiles |].
  intros Hfirst path Hin.
  destruct (Hfiles path Hin) as [Hold | [Hlag _]]; [exact Hold |].
  rewrite Hfirst in Hlag. discriminate.
Qed.

Lemma analyze_tidy_witness :
  (forall path,
     path ∈ fs (snd (analyze (slow_unlink healthy_env)
                             (RequestBody watch_url None) empty_world)) ->
     path ∈ fs empty_world \/
     (unlink_settles_first (slow_unlink healthy_env) path = false /\
      In (EvDetached path)
         (trace (snd (analyze (slow_unlink healthy_env)
                              (RequestBody watch_url None) empty_world))))) /\
  ((forall path, unlink_settles_first (slow_unlink healthy_env) path = true) ->
   fs (snd (analyze (slow_unlink healthy_env)
                    (RequestBody watch_url None) empty_world)) ⊆
   fs empty_world).
Proof.
  apply (analyze_tidy (slow_unlink healthy_env) (RequestBody watch_url None)
           empty_world).
  - intros err. discriminate.
  - intros video written err. discriminate.
  - vm_compute. discriminate.
Defined.

(* ===================================================================== *)
(** * The summaries of the frame notes *)
(* ===================================================================== *)

(** [unique] keeps every element, once. *)
Lemma unique_acc_spec (elements seen : list string) :
  NoDup seen ->
  NoDup (fold_left (fun seen x => if decide (x ∈ seen) then seen else seen ++ [x])
                   elements seen) /\
  forall x,
    x ∈ fold_left (fun seen x => if decide (x ∈ seen) then seen else seen ++ [x])
                  elements seen <->
    x ∈ seen \/ x ∈ elements.
Proof.
  revert seen. induction elements as [|y elements IH]; intros seen Hnd; simpl.
  - split; [exact Hnd |]. intros x. rewrite elem_of_nil. tauto.
  - destruct (decide (y ∈ seen)) as [Hin | Hout].
    + destruct (IH seen Hnd) as [Hnd' Hmem]. split; [exact Hnd' |].
      intros x. rewrite Hmem, elem_of_cons.
      split; [tauto |]. intros [? | [-> | ?]]; tauto.
    + assert (Hnd1 : NoDup (seen ++ [y])).
      { apply NoDup_app. split; [exact Hnd |]. split.
        - intros x Hx [-> | []%elem_of_nil]%elem_of_cons. contradiction.
        - apply NoDup_singleton. }
      destruct (IH _ Hnd1) as [Hnd' Hmem]. split; [exact Hnd' |].
      intros x. rewrite Hmem, elem_of_app, !elem_of_cons, elem_of_nil.
      tauto.
Qed.

Lemma unique_spec (elements : list string) :
  NoDup (unique elements) /\ forall x, x ∈ unique elements <-> x ∈ elements.
Proof.
  destruct (unique_acc_spec elements [] (NoDup_nil_2)) as [Hnd Hmem].
  split; [exact Hnd |]. intros x. unfold unique. rewrite Hmem, elem_of_nil. tauto.
Qed.

(** [starts_with] and [includes] are the prefix and the substring
    relations. *)
Lemma starts_with_spec (p s : string) :
  Js.starts_with p s = true <-> exists b, s = p +:+ b.
Proof.
  revert s. induction p as [|a p IH]; intros s; simpl.
  - split; [intros _; now exists s | reflexivity].
  - destruct s as [|c s].
    + split; [discriminate | intros (b & Hb); discriminate Hb].
    + rewrite andb_true_iff, Ascii.eqb_eq, IH. split.
      * intros (-> & b & ->). now exists b.
      * intros (b & Hb).
        change (String c s = String a (p +:+ b)) in Hb.
        injection Hb as -> ->. split; [reflexivity | now exists b].
Qed.

Lemma includes_spec (s p : string) :
  Js.includes s p = true <-> exists a b, s = a +:+ p +:+ b.
Proof.
  induction s as [|c s IH].
  - simpl. rewrite orb_false_r, starts_with_spec. split.
    + intros (b & Hb). now exists EmptyString, b.
    + intros (a & b & Hab). destruct a as [|x a]; [now exists b |].
      discriminate Hab.
  - change (Js.includes (String c s) p)
      with (Js.starts_with p (String c s) || Js.includes s p).
    rewrite orb_true_iff, starts_with_spec, IH. split.
    + intros [(b & Hb) | (a & b & ->)].
      * now exists EmptyString, b.
      * now exists (String c a), b.
    + intros (a & b & Hab). destruct a as [|x a].
      * left. now exists b.
      * right. change (String c s = String x (a +:+ p +:+ b)) in Hab.
        injection Hab as -> ->. now exists a, b.
Qed.

(** A text that includes [flowchart] includes [chart]. *)
Lemma includes_flowchart (s : string) :
  Js.includes s "flowchart" = true -> Js.includes s "chart" = true.
Proof.
  rewrite !includes_spec. intros (a & b & ->).
  exists (a +:+ "flow"), b. now rewrite append_assoc.
Qed.

(** Membership in the tags collected from the notes. *)
Lemma tag_collected (analyses : list frame_analysis) (tag : string) :
  tag ∈ extractKeyVisualElements analyses <->
  exists a, a ∈ analyses /\
    ((tag = "Charts/Graphs detected" /\
      mentions "chart" a || mentions "graph" a = true) \/
     (tag = "Important text elements" /\
      mentions "text" a || mentions "title" a = true) \/
     (tag = "Diagrams/Flowcharts" /\
      mentions "diagram" a || mentions "flowchart" a = true)).
Proof.
  unfold extractKeyVisualElements, mentions.
  rewrite (proj2 (unique_spec _)), list_elem_of_In, in_flat_map.
  split.
  - intros (a & Ha & Htag). exists a. split; [now apply list_elem_of_In |].
    rewrite !in_app_iff in Htag.
    destruct Htag as [Htag | [Htag | Htag]];
      match type of Htag with
      | In _ (if ?c then _ else _) => destruct c eqn:Hc
      end; try contradiction;
      destruct Htag as [<- | []]; auto.
  - intros (a & Ha & Hcase). exists a. split; [now apply list_elem_of_In |].
    rewrite !in_app_iff.
    destruct Hcase as [(-> & Hc) | [(-> & Hc) | (-> & Hc)]]; rewrite Hc;
      simpl; auto.
Qed.

(** X8. [extractKeyVisualElements] reports each of its three tags at
    most once, so never more than three elements whatever the number
    of notes. A tag is reported exactly when some note mentions one of
    its two keywords in any letter case; since [flowchart] contains
    [chart], a note that mentions a flowchart always yields the
    charts tag together with the diagrams tag. *)
Theorem extractKeyVisualElements_tags (analyses : list frame_analysis) :
  NoDup (extractKeyVisualElements analyses) /\
  (forall tag, tag ∈ extractKeyVisualElements analyses -> tag ∈ visual_tags) /\
  (length (extractKeyVisualElements analyses) <= 3)%nat /\
  ("Charts/Graphs detected" ∈ extractKeyVisualElements analyses <->
   exists a, a ∈ analyses /\ mentions "chart" a || mentions "graph" a = true) /\
  ("Important text elements" ∈ extractKeyVisualElements analyses <->
   exists a, a ∈ analyses /\ mentions "text" a || mentions "title" a = true) /\
  ("Diagrams/Flowcharts" ∈ extractKeyVisualElements analyses <->
   exists a, a ∈ analyses /\ mentions "diagram" a || mentions "flowchart" a = true) /\
  (forall a, a ∈ analyses -> mentions "flowchart" a = true ->
     "Charts/Graphs detected" ∈ extractKeyVisualElements analyses /\
     "Diagrams/Flowcharts" ∈ extractKeyVisualElements analyses).
Proof.
  assert (Hnd : NoDup (extractKeyVisualElements analyses))
    by apply (proj1 (unique_spec _)).
  assert (Hsub : forall tag,
            tag ∈ extractKeyVisualElements analyses -> tag ∈ visual_tags).
  { intros tag (a & _ & [(-> & _) | [(-> & _) | (-> & _)]])%tag_collected;
      unfold visual_tags; rewrite !elem_of_cons; auto. }
  split; [exact Hnd |]. split; [exact Hsub |]. split.
  { change 3%nat with (length visual_tags).
    apply submseteq_length, NoDup_submseteq; assumption. }
  split; [| split; [| split]].
  - rewrite tag_collected. split.
    + intros (a & Ha & [(_ & Hc) | [(Hd & _) | (Hd & _)]]);
        [now exists a | discriminate Hd | discriminate Hd].
    + intros (a & Ha & Hc). exists a. auto.
  - rewrite tag_collected. split.
    + intros (a & Ha & [(Hd & _) | [(_ & Hc) | (Hd & _)]]);
        [discriminate Hd | now exists a | discriminate Hd].
    + intros (a & Ha & Hc). exists a. auto.
  - rewrite tag_collected. split.
    + intros (a & Ha & [(Hd & _) | [(Hd & _) | (_ & Hc)]]);
        [discriminate Hd | discriminate Hd | now exists a].
    + intros (a & Ha & Hc). exists a. auto 6.
  - intros a Ha Hflow. split; apply tag_collected; exists a; (split; [exact Ha |]).
    + left. split; [reflexivity |].
      unfold mentions in *. now rewrite (includes_flowchart _ Hflow).
    + right. right. split; [reflexivity |]. rewrite Hflow. apply orb_true_r.
Qed.

(* ===================================================================== *)
(** * The matcher reports matches of the language *)
(* ===================================================================== *)

Lemma length_append (a b : string) :
  String.length (a +:+ b) = (String.length a + String.length b)%nat.
Proof.
  induction a as [|c a IH]; [reflexivity |].
  change (S (String.length (a +:+ b)) = S (String.length a + String.length b)).
  now rewrite IH.
Qed.

Lemma append_empty_r (a : string) : a +:+ EmptyString = a.
Proof.
  induction a as [|c a IH]; [reflexivity |].
  change (String c (a +:+ EmptyString) = String c a). now rewrite IH.
Qed.

Lemma substring_prefix (a b : string) :
  String.substring 0 (String.length a) (a +:+ b) = a.
Proof.
  induction a as [|c a IH].
  - simpl. now destruct b.
  - change (String c (String.substring 0 (String.length a) (a +:+ b)) =
            String c a).
    now rewrite IH.
Qed.

(** What a list of matcher states, all reached from [s], has to satisfy
    for a regular expression [r]. *)
Definition sound_from (r : re) (s : mstate) (ms : list mstate) : Prop :=
  forall m, In m ms ->
    exists c,
      rest s = c +:+ rest m /\
      pos m = (pos s + String.length c)%nat /\
      denotes (pos s) r c.

Lemma iter_sound (r : re) (body : mstate -> list mstate) :
  (forall s, sound_from r s (body s)) ->
  forall n s, sound_from (Star r) s (iter body n s).
Proof.
  intros Hbody n. induction n as [|n IH]; intros s m; simpl.
  - intros [<- | []]. exists EmptyString. repeat split; simpl; [lia | apply D_StarNil].
  - rewrite in_app_iff, in_flat_map.
    intros [(s1 & Hs1 & Hm) | [<- | []]].
    2:{ exists EmptyString. repeat split; simpl; [lia | apply D_StarNil]. }
    destruct (progressed s s1) eqn:Hprog; [| contradiction].
    destruct (Hbody s s1 Hs1) as (c1 & Hrest1 & Hpos1 & Hd1).
    destruct (IH s1 m Hm) as (c2 & Hrest2 & Hpos2 & Hd2).
    exists (c1 +:+ c2). split; [| split].
    + now rewrite Hrest1, Hrest2, append_assoc.
    + rewrite Hpos2, Hpos1, length_append. lia.
    + apply D_StarCons; [exact Hd1 | | now rewrite <- Hpos1].
      intros ->. unfold progressed in Hprog.
      apply Nat.ltb_lt in Hprog. simpl in Hpos1. lia.
Qed.

(** Every state the matcher reaches consumed a string of the language
    of the regular expression. *)
Lemma run_sound (r : re) : forall s, sound_from r s (run r s).
Proof.
  induction r as [| | f | r1 IH1 r2 IH2 | r1 IH1 r2 IH2 | r IH | r IH | r IH
                 | g r IH]; intros s m; simpl.
  - intros [<- | []]. exists EmptyString. repeat split; simpl; [lia | apply D_Eps].
  - destruct (pos s =? 0)%nat eqn:Hpos; [| contradiction].
    intros [<- | []]. exists EmptyString.
    apply Nat.eqb_eq in Hpos. rewrite Hpos. repeat split. constructor.
  - unfold step_char. destruct (rest s) as [|c t]; [contradiction |].
    destruct (f c) eqn:Hf; [| contradiction].
    intros [<- | []]. exists (String c EmptyString); simpl.
    repeat split; [lia | now constructor].
  - rewrite in_flat_map. intros (s1 & Hs1 & Hm).
    destruct (IH1 s s1 Hs1) as (c1 & Hrest1 & Hpos1 & Hd1).
    destruct (IH2 s1 m Hm) as (c2 & Hrest2 & Hpos2 & Hd2).
    exists (c1 +:+ c2). split; [| split].
    + now rewrite Hrest1, Hrest2, append_assoc.
    + rewrite Hpos2, Hpos1, length_append. lia.
    + apply D_Seq; [exact Hd1 | now rewrite <- Hpos1].
  - rewrite in_app_iff. intros [Hm | Hm].
    + destruct (IH1 s m Hm) as (c & ? & ? & ?). exists c.
      repeat split; try assumption. now apply D_AltL.
    + destruct (IH2 s m Hm) as (c & ? & ? & ?). exists c.
      repeat split; try assumption. now apply D_AltR.
  - rewrite in_app_iff. intros [Hm | [<- | []]].
    + destruct (IH s m Hm) as (c & ? & ? & ?). exists c.
      repeat split; try assumption. now apply D_OptSome.
    + exists EmptyString. repeat split; simpl; [lia | apply D_OptNone].
  - apply (iter_sound r (run r) IH).
  - rewrite in_flat_map. intros (s1 & Hs1 & Hm).
    destruct (IH s s1 Hs1) as (c1 & Hrest1 & Hpos1 & Hd1).
    destruct (iter_sound r (run r) IH _ s1 m Hm) as (c2 & Hrest2 & Hpos2 & Hd2).
    exists (c1 +:+ c2). split; [| split].
    + now rewrite Hrest1, Hrest2, append_assoc.
    + rewrite Hpos2, Hpos1, length_append. lia.
    + apply D_Plus; [exact Hd1 | now rewrite <- Hpos1].
  - rewrite in_map_iff. intros (m1 & <- & Hm1).
    destruct (IH s m1 Hm1) as (c & ? & ? & ?). exists c.
    repeat split; try assumption. now apply D_Grp.
Qed.

(** The capture of a group is the string its body consumed. *)
Lemma run_Grp_capture (g : nat) (r : re) (s m : mstate) :
  In m (run (Grp g r) s) ->
  exists c,
    group g m = Some c /\
    rest s = c +:+ rest m /\
    pos m = (pos s + String.length c)%nat /\
    denotes (pos s) r c.
Proof.
  simpl. rewrite in_map_iff. intros (m1 & <- & Hm1).
  destruct (run_sound r s m1 Hm1) as (c & Hrest & Hpos & Hd).
  exists c. split; [| now repeat split].
  unfold group, set_cap; simpl. rewrite Nat.eqb_refl. simpl.
  rewrite Hpos, Hrest.
  replace (pos s + String.length c - pos s)%nat with (String.length c) by lia.
  now rewrite substring_prefix.
Qed.

(** A match found by [exec] starts somewhere in the subject. *)
Lemma exec_from_In (r : re) (s : string) :
  forall offset m,
    exec_from r offset s = Some m ->
    exists before after,
      s = before +:+ after /\
      In m (run r (MState (offset + String.length before) after [])).
Proof.
  induction s as [|c s IH]; intros offset m; simpl.
  - destruct (match_at r offset EmptyString) as [m0 |] eqn:Hat; [| discriminate].
    intros [= <-]. exists EmptyString, EmptyString. split; [reflexivity |].
    simpl. rewrite Nat.add_0_r. now apply head_In.
  - destruct (match_at r offset (String c s)) as [m0 |] eqn:Hat.
    + intros [= <-]. exists EmptyString, (String c s). split; [reflexivity |].
      simpl. rewrite Nat.add_0_r. now apply head_In.
    + intros Hex. destruct (IH _ _ Hex) as (before & after & -> & Hin).
      exists (String c before), after. split; [reflexivity |].
      simpl. now rewrite Nat.add_succ_r.
Qed.

(** A match of a regular expression is a substring of the subject, in
    the language of the expression. *)
Lemma exec_sound (r : re) (s : string) (m : mstate) :
  exec r s = Some m ->
  exists before c p,
    s = before +:+ c +:+ rest m /\ denotes p r c.
Proof.
  intros Hex. destruct (exec_from_In r s 0 m Hex) as (before & after & -> & Hin).
  destruct (run_sound r _ m Hin) as (c & Hrest & _ & Hd). simpl in Hrest.
  exists before, c, (0 + String.length before)%nat. now rewrite Hrest.
Qed.

Lemma denotes_chr (p : nat) (a : ascii) (c : string) :
  denotes p (chr a) c -> c = String a EmptyString.
Proof.
  unfold chr. inversion 1; subst.
  match goal with H : Ascii.eqb _ _ = true |- _ => apply Ascii.eqb_eq in H end.
  now subst.
Qed.

Lemma denotes_lit (s : string) : forall p c, denotes p (lit s) c -> c = s.
Proof.
  induction s as [|a s IH]; intros p c; simpl.
  - now inversion 1.
  - destruct s as [|b s].
    + apply denotes_chr.
    + inversion 1; subst.
      match goal with
      | H1 : denotes _ (chr _) ?x, H2 : denotes _ _ ?y |- ?x +:+ ?y = _ =>
          apply denotes_chr in H1; apply IH in H2; subst
      end.
      reflexivity.
Qed.

Lemma denotes_star_class (f : ascii -> bool) (p : nat) (c : string) :
  denotes p (Star (Cls f)) c -> all_chars f c = true.
Proof.
  intros Hd. remember (Star (Cls f)) as r eqn:Hr.
  induction Hd; try discriminate; [reflexivity |].
  injection Hr as ->.
  match goal with H : denotes _ (Cls _) _ |- _ => inversion H; subst end.
  simpl. match goal with H : f _ = true |- _ => rewrite H end.
  now apply IHHd2.
Qed.

Lemma denotes_plus_class (f : ascii -> bool) (p : nat) (c : string) :
  denotes p (Plus (Cls f)) c -> c <> EmptyString /\ all_chars f c = true.
Proof.
  inversion 1; subst.
  match goal with H : denotes _ (Cls _) _ |- _ => inversion H; subst end.
  match goal with H : denotes _ (Star _) _ |- _ =>
    apply denotes_star_class in H end.
  split; [discriminate |].
  simpl. match goal with H : f _ = true |- _ => rewrite H end. assumption.
Qed.

(* ===================================================================== *)
(** * Quoted text of the frame notes *)
(* ===================================================================== *)

(** Every string [match_all] returns is a substring of the subject, in
    the language of the regular expression. *)
Lemma match_all_from_sound (r : re) (n : nat) :
  forall offset s x,
    In x (match_all_from r n offset s) ->
    exists before after p, s = before +:+ x +:+ after /\ denotes p r x.
Proof.
  induction n as [|n IH]; intros offset s x; simpl; [contradiction |].
  destruct (exec_from (Grp 0 r) offset s) as [m |] eqn:Hex; [| contradiction].
  destruct (exec_from_In _ _ _ _ Hex) as (before & after & -> & Hin).
  destruct (run_Grp_capture _ _ _ _ Hin) as (c & -> & Hrest & _ & Hd).
  simpl in Hrest, Hd. subst after.
  assert (Hrec : forall offset' t,
            In x (match_all_from r n offset' t) ->
            forall pre, rest m = pre +:+ t ->
            exists before0 after0 p,
              before +:+ c +:+ rest m = before0 +:+ x +:+ after0 /\ denotes p r x).
  { intros offset' t Hx pre Hpre.
    destruct (IH _ _ _ Hx) as (b1 & a1 & p & -> & Hdx).
    exists (before +:+ c +:+ pre +:+ b1), a1, p. split; [| exact Hdx].
    rewrite Hpre. now rewrite !append_assoc. }
  destruct c as [|c0 c].
  - destruct (rest m) as [|c1 t] eqn:Hm.
    + intros [<- | []]. exists before, EmptyString. eexists.
      split; [reflexivity | exact Hd].
    + intros [<- | Hx].
      * exists before, (String c1 t). eexists. split; [reflexivity | exact Hd].
      * now apply (Hrec _ _ Hx (String c1 EmptyString)).
  - intros [<- | Hx].
    + exists before, (rest m). eexists. split; [reflexivity | exact Hd].
    + now apply (Hrec _ _ Hx EmptyString).
Qed.

(** The language of the regexp of [extractTextFromAnalyses]: a quoted,
    non-empty text without a double quote inside. *)
Lemma quotedRegex_language (p : nat) (x : string) :
  denotes p quotedRegex x ->
  exists body,
    x = String "034" (body +:+ String "034" EmptyString) /\
    body <> EmptyString /\
    all_chars (fun c => negb (is_quote c)) body = true.
Proof.
  unfold quotedRegex. intros Hd.
  repeat match goal with
         | H : denotes _ (Seq _ _) _ |- _ => inversion H; subst; clear H
         | H : denotes _ (Grp _ _) _ |- _ => inversion H; subst; clear H
         | H : denotes _ (Cls is_quote) _ |- _ => inversion H; subst; clear H
         end.
  match goal with
  | H : denotes _ (Plus _) ?b |- _ =>
      apply denotes_plus_class in H; destruct H as [Hne Hall]; exists b
  end.
  repeat match goal with
         | H : is_quote _ = true |- _ =>
             unfold is_quote in H; apply Ascii.eqb_eq in H; subst
         end.
  split; [reflexivity | split; assumption].
Qed.

Lemma strip_quotes_clean (body tail : string) :
  all_chars (fun c => negb (is_quote c)) body = true ->
  strip_quotes (body +:+ tail) = body +:+ strip_quotes tail.
Proof.
  induction body as [|c body IH]; [reflexivity |].
  simpl. intros [Hc Hbody]%andb_prop.
  change (strip_quotes (String c (body +:+ tail)) =
          String c (body +:+ strip_quotes tail)).
  simpl. apply negb_true_iff in Hc. rewrite Hc. now rewrite IH.
Qed.

(** X9. Every snippet [extractTextFromAnalyses] returns is non-empty
    and holds no double quote, and it stands between two double quotes
    in the text of one of the notes. *)
Theorem extractTextFromAnalyses_snippets
    (analyses : list frame_analysis) (snippet : string) :
  In snippet (extractTextFromAnalyses analyses) ->
  snippet <> EmptyString /\
  all_chars (fun c => negb (is_quote c)) snippet = true /\
  exists a,
    In a analyses /\
    Js.includes (analysis a)
                (String "034" (snippet +:+ String "034" EmptyString)) = true.
Proof.
  unfold extractTextFromAnalyses. rewrite in_flat_map.
  intros (a & Ha & Hsn). apply in_map_iff in Hsn as (x & <- & Hx).
  unfold match_all in Hx.
  destruct (match_all_from_sound _ _ _ _ _ Hx) as (before & after & p & Htext & Hd).
  destruct (quotedRegex_language _ _ Hd) as (body & -> & Hne & Hclean).
  assert (Hstrip : strip_quotes (String "034" (body +:+ String "034" EmptyString))
                   = body).
  { change (strip_quotes (String "034" (body +:+ String "034" EmptyString)))
      with (strip_quotes (body +:+ String "034" EmptyString)).
    rewrite (strip_quotes_clean _ _ Hclean). simpl. apply append_empty_r. }
  rewrite Hstrip. split; [exact Hne |]. split; [exact Hclean |].
  exists a. split; [exact Ha |].
  apply includes_spec. now exists before, after.
Qed.

Lemma extractTextFromAnalyses_snippets_witness :
  "Q1 results" <> EmptyString /\
  all_chars (fun c => negb (is_quote c)) "Q1 results" = true /\
  exists a,
    In a [quoted_note] /\
    Js.includes (analysis a)
                (String "034" ("Q1 results" +:+ String "034" EmptyString)) = true.
Proof.
  apply (extractTextFromAnalyses_snippets [quoted_note] "Q1 results").
  vm_compute. now left.
Defined.

(* ===================================================================== *)
(** * Platform tests and Instagram identifiers *)
(* ===================================================================== *)

(** X10. The identifier [extractVideoId] parses from an Instagram URL
    (it drew none from the random source) is non-empty, holds only
    letters, digits, underscores and hyphens, and follows [/p/] in the
    URL. *)
Theorem extractVideoId_instagram_token
    (E : env) (videoUrl : string) (w w' : world) (id : string) :
  isYouTubeUrl videoUrl = false ->
  isInstagramUrl videoUrl = true ->
  extractVideoId E videoUrl w = (Ret id, w') ->
  uuids w' = uuids w ->
  id <> EmptyString /\
  all_chars is_token_char id = true /\
  Js.includes videoUrl ("/p/" +:+ id) = true.
Proof.
  intros Hyt Hig. unfold extractVideoId. rewrite Hyt, Hig.
  destruct (exec instagramIdRegex videoUrl) as [m |] eqn:Hex.
  2:{ unfold uuidv4. intros [= <- <-]. simpl. lia. }
  unfold ret. intros [= <- <-] _.
  destruct (exec_from_In _ _ _ _ Hex) as (before & after & Hurl & Hin).
  unfold instagramIdRegex in Hin. apply run_Seq_In in Hin as (s1 & Hlit & Hgrp).
  destruct (run_sound _ _ _ Hlit) as (c0 & Hrest0 & _ & Hd0).
  apply denotes_lit in Hd0. subst c0. simpl in Hrest0.
  destruct (run_Grp_capture _ _ _ _ Hgrp) as (c & Hcap & Hrest & _ & Hd).
  apply denotes_plus_class in Hd as [Hne Hall].
  unfold group_of. rewrite Hcap. simpl.
  split; [exact Hne |]. split; [exact Hall |].
  apply includes_spec. exists before, (rest m).
  rewrite Hurl, Hrest0, Hrest. now rewrite !append_assoc.
Qed.

Lemma extractVideoId_instagram_token_witness :
  "CqX_9-abZ" <> EmptyString /\
  all_chars is_token_char "CqX_9-abZ" = true /\
  Js.includes post_url ("/p/" +:+ "CqX_9-abZ") = true.
Proof.
  apply (extractVideoId_instagram_token healthy_env post_url
           empty_world empty_world "CqX_9-abZ");
    vm_compute; reflexivity.
Defined.

(** Inversion of a derivation over a regular expression without
    iteration. *)
Ltac invert_denotes :=
  repeat match goal with
         | H : denotes _ (lit _) _ |- _ => apply denotes_lit in H; subst
         | H : denotes _ (chr _) _ |- _ => apply denotes_chr in H; subst
         | H : denotes _ (Seq _ _) _ |- _ => inversion H; subst; clear H
         | H : denotes _ (Alt _ _) _ |- _ => inversion H; subst; clear H
         | H : denotes _ (Opt _) _ |- _ => inversion H; subst; clear H
         | H : denotes _ (Grp _ _) _ |- _ => inversion H; subst; clear H
         | H : denotes _ Bol _ |- _ => inversion H; subst; clear H
         end.

(** The strings [youtubeRegex] and [instagramRegex] can match. *)
Lemma youtubeRegex_language (p : nat) (c : string) :
  denotes p youtubeRegex c -> In c youtube_prefixes.
Proof.
  unfold youtubeRegex. intros Hd. invert_denotes; vm_compute; tauto.
Qed.

Lemma instagramRegex_language (p : nat) (c : string) :
  denotes p instagramRegex c -> In c instagram_prefixes.
Proof.
  unfold instagramRegex. intros Hd. invert_denotes; vm_compute; tauto.
Qed.

(** A test with an anchored regexp succeeds exactly on the subjects
    that begin with a string the regexp can match at the start. *)
Lemma test_anchored_prefix (r : re) (s : string) :
  test (Seq Bol r) s = true ->
  exists c, denotes 0 (Seq Bol r) c /\ Js.starts_with c s = true.
Proof.
  unfold test. rewrite exec_anchored.
  destruct (match_at (Seq Bol r) 0 s) as [m |] eqn:Hat; [| discriminate].
  intros _. apply head_In in Hat.
  destruct (run_sound _ _ _ Hat) as (c & Hrest & _ & Hd). simpl in Hrest, Hd.
  exists c. split; [exact Hd |]. apply starts_with_spec. now exists (rest m).
Qed.

(** A URL accepted by [isYouTubeUrl] begins with one of the prefixes. *)
Lemma youtube_url_prefix (url : string) :
  isYouTubeUrl url = true ->
  exists prefix b, In prefix youtube_prefixes /\ url = prefix +:+ b.
Proof.
  intros Htest. apply test_anchored_prefix in Htest as (c & Hd & Hpre).
  apply starts_with_spec in Hpre as (b & ->).
  exists c, b. split; [now apply (youtubeRegex_language 0) | reflexivity].
Qed.

(** X11. [isYouTubeUrl] accepts exactly the URLs that begin with an
    optional [http://] or [https://], an optional [www.], and
    [youtube.com/] or [youtu.be/]; any other host, such as a
    subdomain, is refused. *)
Theorem isYouTubeUrl_prefixes (url : string) :
  isYouTubeUrl url = true <->
  existsb (fun prefix => Js.starts_with prefix url) youtube_prefixes = true.
Proof.
  rewrite existsb_exists. split.
  - intros (prefix & b & Hin & ->)%youtube_url_prefix.
    exists prefix. split; [exact Hin |]. apply starts_with_spec. now exists b.
  - intros (prefix & Hin & Hpre). apply starts_with_spec in Hpre as (b & ->).
    vm_compute in Hin.
    repeat (destruct Hin as [<- | Hin]; [vm_compute; reflexivity |]).
    contradiction.
Qed.

(** X12. [isInstagramUrl] accepts exactly the URLs that begin with an
    optional [http://] or [https://], an optional [www.], and
    [instagram.com/]; no URL passes both this test and
    [isYouTubeUrl]. *)
Theorem isInstagramUrl_prefixes (url : string) :
  (isInstagramUrl url = true <->
   existsb (fun prefix => Js.starts_with prefix url) instagram_prefixes = true) /\
  isYouTubeUrl url && isInstagramUrl url = false.
Proof.
  split.
  - rewrite existsb_exists. split.
    + intros Htest. apply test_anchored_prefix in Htest as (c & Hd & Hpre).
      exists c. split; [| exact Hpre]. now apply (instagramRegex_language 0).
    + intros (prefix & Hin & Hpre). apply starts_with_spec in Hpre as (b & ->).
      vm_compute in Hin.
      repeat (destruct Hin as [<- | Hin]; [vm_compute; reflexivity |]).
      contradiction.
  - destruct (isYouTubeUrl url) eqn:Hyt; [| reflexivity].
    apply youtube_url_prefix in Hyt as (prefix & b & Hin & ->).
    unfold isInstagramUrl, test, instagramRegex. rewrite exec_anchored.
    vm_compute in Hin.
    repeat (destruct Hin as [<- | Hin]; [vm_compute; reflexivity |]).
    contradiction.
Qed.

(* ===================================================================== *)
(** * Video information *)
(* ===================================================================== *)

Lemma parse_digits_uint (d : Decimal.uint) :
  forall acc,
    parse_digits 10 (NilEmpty.string_of_uint d) (Some acc) =
    Some (Nat.of_uint_acc d acc).
Proof.
  induction d; intros acc;
    try (change (parse_digits 10 (NilEmpty.string_of_uint (Decimal.Nil)) (Some acc))
           with (Some acc); reflexivity);
    cbn [NilEmpty.string_of_uint parse_digits];
    match goal with
    | |- context [digit_value ?c] =>
        let v := eval vm_compute in (digit_value c) in
        change (digit_value c) with v
    end;
    cbv iota beta; change (_ <? 10)%nat with true; cbv iota;
    rewrite IHd; cbn [Nat.of_uint_acc default]; rewrite Nat.tail_mul_spec;
    unfold id; f_equal; f_equal; lia.
Qed.

(** [parseInt] reads back the decimal rendering of a natural number. *)
Ltac eval_char_tests :=
  repeat match goal with
         | |- context [is_white_space ?c] =>
             let v := eval vm_compute in (is_white_space c) in
             change (is_white_space c) with v
         | |- context [digit_value ?c] =>
             let v := eval vm_compute in (digit_value c) in
             change (digit_value c) with v
         end.

Lemma parseInt_uint (d : Decimal.uint) :
  parseInt (NilZero.string_of_uint d) = Some (Z.of_nat (Nat.of_uint d)).
Proof.
  destruct d as [| d | d | d | d | d | d | d | d | d | d];
    [reflexivity | destruct d | ..].
  all: try reflexivity.
  all: unfold parseInt, NilZero.string_of_uint.
  all: cbn [NilEmpty.string_of_uint trim_start].
  all: eval_char_tests; cbv beta iota zeta.
  all: cbn [parse_digits]; eval_char_tests; cbv beta iota.
  all: repeat (change (_ <? 10)%nat with true; cbv iota).
  all: rewrite parse_digits_uint; cbn [fmap option_fmap option_map].
  all: rewrite Z.mul_1_l; do 2 f_equal.
  all: unfold Nat.of_uint; cbn [Nat.of_uint_acc]; f_equal.
  all: vm_compute; reflexivity.
Qed.

(** X13. The duration [getVideoInfo] reports is the number of seconds
    ytdl gives: when [lengthSeconds] is the decimal rendering of a
    natural number below [2^53], [duration] is that number. *)
Theorem getVideoInfo_duration
    (ytdl_getInfo : string -> info_result) (videoUrl : string) (w : world)
    (details : video_details) (seconds : nat) :
  isYouTubeUrl videoUrl = true ->
  ytdl_getInfo videoUrl = InfoOk details ->
  vd_lengthSeconds details = Js.of_nat seconds ->
  (Z.of_nat seconds < 2 ^ 53)%Z ->
  exists info,
    fst (getVideoInfo ytdl_getInfo videoUrl w) = Ret info /\
    vi_duration info = Some (Z.of_nat seconds).
Proof.
  intros Hyt Hinfo Hlen _.
  exists (video_info_of details). split.
  - unfold getVideoInfo, try_catch, getInfo. rewrite Hyt.
    unfold bind. rewrite Hinfo. reflexivity.
  - unfold video_info_of; simpl. rewrite Hlen. unfold Js.of_nat.
    rewrite parseInt_uint. now rewrite DecimalNat.Unsigned.of_to.
Qed.

Lemma getVideoInfo_duration_witness :
  exists info,
    fst (getVideoInfo (fun _ => InfoOk sample_details) watch_url empty_world) =
      Ret info /\
    vi_duration info = Some (Z.of_nat 212).
Proof.
  apply (getVideoInfo_duration (fun _ => InfoOk sample_details) watch_url
           empty_world sample_details 212);
    [vm_compute; reflexivity | reflexivity | reflexivity | reflexivity].
Defined.

(** The handler of [POST /info] on a validated body. *)
Lemma info_handler_outcome
    (ytdl_getInfo : string -> info_result) (body : request_body) (w : world) :
  exists w',
    info ytdl_getInfo body w = (Ret (info_answer ytdl_getInfo (url body)), w') /\
    fs w' = fs w /\ uuids w' = uuids w.
Proof.
  unfold info, info_answer, getVideoInfo, try_catch, getInfo, bind.
  destruct (isYouTubeUrl (url body));
    [destruct (ytdl_getInfo (url body)) as [details | err] |];
    eexists; repeat split.
Qed.

(** The value of a body that passes the validation carries the URL of
    the body, which passed the URI test. *)
Lemma validated_url
    (joi_uri : string -> bool) (body : raw_body) (value : request_body) :
  schemas_videoURL_validate joi_uri body = inr value ->
  raw_url body = Some (url value) /\ joi_uri (url value) = true.
Proof.
  unfold schemas_videoURL_validate.
  destruct (raw_url body) as [[| c u] |]; try discriminate.
  destruct (joi_uri (String c u)) eqn:Huri; [| discriminate].
  destruct (raw_format body) as [format |].
  - destruct (existsb _ _); [| discriminate].
    intros [= <-]. now split.
  - intros [= <-]. now split.
Qed.

(** X14. [POST /info] validates the body first: a body that
    [validateVideoURL] refuses is answered with status 400 and the
    error [Validation failed], and the handler is not run. For a body
    that passes, the route answers with the video information when the
    URL is a YouTube URL and ytdl returns its details, with [keywords]
    defaulting to the empty list; in every other case, a URL of
    another platform (Instagram included) or a failure of ytdl, the
    answer is the same status 500 with the error
    [Failed to get video info] and the message
    [Failed to get video information]: the cause cannot be told from
    the response. So the information is sent only for a URL that
    passes both the URI test of the validation and [isYouTubeUrl]. The
    route leaves the scratch directory and the random source
    untouched. *)
Theorem info_route_outcome
    (joi_uri : string -> bool) (ytdl_getInfo : string -> info_result)
    (body : raw_body) (w : world) :
  fst (post_info joi_uri ytdl_getInfo body w) =
    Ret (match schemas_videoURL_validate joi_uri body with
         | inl fields => Refused 400 false "Validation failed" fields
         | inr value => Handled (info_answer ytdl_getInfo (url value))
         end) /\
  (forall data,
     fst (post_info joi_uri ytdl_getInfo body w) = Ret (Handled (InfoJson true data)) ->
     exists url details,
       raw_url body = Some url /\ joi_uri url = true /\
       isYouTubeUrl url = true /\ ytdl_getInfo url = InfoOk details /\
       data = video_info_of details) /\
  fs (snd (post_info joi_uri ytdl_getInfo body w)) = fs w /\
  uuids (snd (post_info joi_uri ytdl_getInfo body w)) = uuids w.
Proof.
  unfold post_info, validateVideoURL.
  destruct (schemas_videoURL_validate joi_uri body) as [fields | value] eqn:Hv.
  - repeat split. intros data. discriminate.
  - destruct (info_handler_outcome ytdl_getInfo value w) as (w' & Hrun & Hfs & Hu).
    erewrite bind_Ret by exact Hrun. simpl.
    split; [reflexivity |]. split; [| now split].
    destruct (validated_url _ _ _ Hv) as [Hurl Huri].
    intros data. unfold info_answer.
    destruct (isYouTubeUrl (url value)) eqn:Hyt; [| discriminate].
    destruct (ytdl_getInfo (url value)) as [details | err] eqn:Hinfo;
      [| discriminate].
    intros [= <-]. now exists (url value), details.
Qed.

(** No URL is of both platforms. *)
Lemma platforms_exclusive (url : string) :
  isInstagramUrl url = true -> isYouTubeUrl url = false.
Proof.
  intros Hig. destruct (isYouTubeUrl url) eqn:Hyt; [| reflexivity].
  apply youtube_url_prefix in Hyt as (prefix & b & Hin & ->).
  revert Hig. unfold isInstagramUrl, test, instagramRegex.
  rewrite exec_anchored. vm_compute in Hin.
  repeat (destruct Hin as [<- | Hin]; [vm_compute; discriminate |]).
  contradiction.
Qed.

(** [extractAudio] on a URL that is not a YouTube URL. *)
Lemma extractAudio_unsupported (E : env) (videoUrl : string) (w : world) :
  isYouTubeUrl videoUrl = false ->
  exists w',
    extractAudio E videoUrl w = (Throw extraction_error, w') /\ fs w' = fs w.
Proof.
  intros Hyt.
  destruct (extractVideoId_returns E videoUrl w) as (id & n & Hid).
  unfold extractAudio, try_catch. erewrite bind_Ret by exact Hid.
  erewrite bind_Ret by reflexivity. cbv zeta. rewrite Hyt.
  destruct (isInstagramUrl videoUrl); eexists; split; reflexivity.
Qed.

(** X15. Instagram videos are never analysed. A request of
    [POST /analyze] with an Instagram URL is either refused by the
    validation, with status 400, or answered by the handler with
    status 500 and the message [Failed to extract audio from video];
    either way the scratch directory is left as it was. And
    [POST /analyze-instagram], which has no validation, answers every
    request with status 500 and the message of
    [processInstagramVideo]. *)
Theorem instagram_never_analysed
    (joi_uri : string -> bool) (E : env) (body : raw_body) (url : string)
    (w : world) :
  raw_url body = Some url ->
  isInstagramUrl url = true ->
  fst (post_analyze joi_uri E body w) =
    Ret (match schemas_videoURL_validate joi_uri body with
         | inl fields => Refused 400 false "Validation failed" fields
         | inr _ =>
             Handled (StatusJson 500 false "Failed to analyze video"
                                 "Failed to extract audio from video")
         end) /\
  fs (snd (post_analyze joi_uri E body w)) = fs w /\
  forall (raw : raw_body) (w0 : world),
    fst (analyze_instagram E raw w0) =
      Ret (InstagramStatusJson 500 false "Failed to analyze Instagram video"
             "Instagram video processing requires additional setup").
Proof.
  intros Hurl Hig. split; [| split]; [| | intros raw w0; reflexivity];
    unfold post_analyze, validateVideoURL;
    destruct (schemas_videoURL_validate joi_uri body) as [fields | value] eqn:Hv;
    try reflexivity.
  all: destruct (validated_url _ _ _ Hv) as [Hsame _].
  all: rewrite Hurl in Hsame; injection Hsame as ->.
  all: apply platforms_exclusive in Hig.
  all: destruct (extractAudio_unsupported E (VideoRoutes.url value)
                   (started (VideoRoutes.url value) w) Hig)
         as (w1 & Hex & Hfs).
  all: assert (Haudio : audio_branch E (VideoRoutes.url value)
                          (started (VideoRoutes.url value) w) =
                          (Throw extraction_error, w1))
         by (unfold audio_branch; erewrite bind_Throw by exact Hex; reflexivity).
  all: erewrite bind_Ret
         by (rewrite (analyze_after_audio_failure _ _ _ _ _ Haudio); reflexivity).
  - reflexivity.
  - exact Hfs.
Qed.

Lemma instagram_never_analysed_witness :
  fst (post_analyze https_only healthy_env (RawBody (Some post_url) None)
                    empty_world) =
    Ret (Handled (StatusJson 500 false "Failed to analyze video"
                             "Failed to extract audio from video")) /\
  fst (post_analyze https_only healthy_env
                    (RawBody (Some "instagram.com/p/CqX_9-abZ/") None)
                    empty_world) =
    Ret (Refused 400 false "Validation failed" ["url"]).
Proof.
  split.
  - apply (instagram_never_analysed https_only healthy_env
             (RawBody (Some post_url) None) post_url empty_world);
      vm_compute; reflexivity.
  - apply (instagram_never_analysed https_only healthy_env
             (RawBody (Some "instagram.com/p/CqX_9-abZ/") None)
             "instagram.com/p/CqX_9-abZ/" empty_world);
      vm_compute; reflexivity.
Defined.

(** X16. The controller [analyzeVideo] never sends a result. It answers
    with status 400 when the body has no URL or an empty one; for
    every other URL the call of [videoService.analyzeVideo] throws,
    because the service has no member of that name, and the
    controller answers with status 500. *)
Theorem analyzeVideo_never_succeeds
    (invoke : string -> string -> M string) (url : option string) (w : world) :
  fst (analyzeVideo invoke url w) =
    Ret (match url with
         | None | Some EmptyString => ControllerStatus 400 "Video URL is required"
         | Some _ => ControllerStatus 500 "Failed to analyze video"
         end).
Proof. destruct url as [[| c u] |]; reflexivity. Qed.

(** * The text the generators work with *)

(** X17. Of the object [POST /analyze] hands to a generator,
    [extractText] keeps the text of the transcript alone: the visual
    notes and the URL never reach the prompt. When the text of the
    transcript is empty the result is not a string but the transcript
    object itself. *)
Theorem extractText_ignores_visual_notes
    (stringify : AIService.value -> AIService.value) (text : string)
    (transcript_rest : list (string * AIService.value))
    (visualNotes url : AIService.value) :
  AIService.extractText stringify
      (content_value text transcript_rest visualNotes url) =
    inr (match text with
         | EmptyString =>
             AIService.VObject
               (("text", AIService.VString EmptyString) :: transcript_rest)
         | _ => AIService.VString text
         end).
Proof. destruct text; reflexivity. Qed.

(** X18. [extractText] throws exactly on [undefined] and [null]. On
    every other content it returns a value, which is the content
    itself when that is a string, and otherwise either a truthy member
    found under [text], [transcript] or [content], or the rendering of
    the whole content by [JSON.stringify]. *)
Theorem extractText_outcomes
    (stringify : AIService.value -> AIService.value)
    (content : AIService.value) :
  ((exists e, AIService.extractText stringify content = inl e) <->
   content = AIService.VUndefined \/ content = AIService.VNull) /\
  (forall s,
     content = AIService.VString s ->
     AIService.extractText stringify content = inr content) /\
  (forall v,
     AIService.extractText stringify content = inr v ->
     (exists s, content = AIService.VString s) \/
     AIService.truthy v = true \/
     v = stringify content).
Proof.
  assert (Hobj : forall fields,
            let content := AIService.VObject fields in
            exists v,
              AIService.extractText stringify content = inr v /\
              (AIService.truthy v = true \/ v = stringify content)).
  { intros fields. cbn [AIService.extractText AIService.property].
    destruct (AIService.truthy (AIService.field "text" fields)) eqn:Htext;
      [eauto |].
    destruct (AIService.truthy (AIService.field "transcript" fields))
      eqn:Htr.
    - destruct (AIService.property (AIService.field "transcript" fields) "text")
        as [e | inner] eqn:Hp.
      + destruct (AIService.field "transcript" fields); discriminate.
      + destruct (AIService.truthy inner) eqn:Hin; eauto.
    - destruct (AIService.truthy (AIService.field "content" fields)) eqn:Hc;
        eauto.
  }
  split; [| split].
  - split.
    + intros [e He].
      destruct content as [| | b | q | s | l | l]; auto; try discriminate.
      destruct (Hobj l) as (v & Hv & _). cbv zeta in Hv. congruence.
    + intros [-> | ->]; eexists; reflexivity.
  - intros s ->. reflexivity.
  - intros v Hv.
    destruct content as [| | b | q | s | l | l]; try discriminate.
    + right. right. now inversion Hv.
    + right. right. now inversion Hv.
    + left. eauto.
    + right. right. now inversion Hv.
    + right. destruct (Hobj l) as (v' & Hv' & Hcases). cbv zeta in Hv'.
      rewrite Hv in Hv'. inversion Hv'; subst v'. exact Hcases.
Qed.
